(** * ZeroTier::RingBuffer<T> (node/RingBuffer.hpp): a shallow embedding

    The class is a fixed-capacity circular buffer with five fields
    ([buf], [size], [begin], [end], [wrap]) and a handful of methods that
    move the two indices, copy elements in and out, and compute simple
    statistics over the stored values.

    Modelling choices, all local to this file:
    - [size_t] is a 64-bit unsigned integer: values are [Z] and every
      arithmetic result is reduced with [wrap_size] (modulo 2^64);
    - the storage block and the caller's arrays are [list T], indexed with
      stdpp's lookup; an access outside the block is a [Fault];
    - [%] with a zero divisor is a [Fault] as well;
    - a method is a computation in the state-and-error monad [M];
    - [float] is IEEE-754 binary32, computed with the Standard Library's
      [SpecFloat] at precision 24 and maximal exponent 128;
    - the template parameter [T] is the class [Elem].

    [get_buf], which hands out the raw pointer [buf + begin], is not
    modelled. *)

From Stdlib Require Import ZArith Lia.
From Stdlib Require Import Floats.SpecFloat.
From stdpp Require Import base tactics option list numbers.

Local Open Scope Z_scope.

(** ** Machine integers and floats *)

Definition SIZE_BITS : Z := 64.
Definition wrap_size (x : Z) : Z := x mod 2 ^ SIZE_BITS.

(** A [size_t] value. *)
Definition is_size_t (x : Z) : Prop := 0 <= x < 2 ^ SIZE_BITS.

Module F32.
Definition prec : Z := 24.
Definition emax : Z := 128.
Definition float : Type := spec_float.

Definition zero : float := S754_zero false.
Definition add : float -> float -> float := SFadd prec emax.
Definition sub : float -> float -> float := SFsub prec emax.
Definition mul : float -> float -> float := SFmul prec emax.
Definition div : float -> float -> float := SFdiv prec emax.
Definition sqrt : float -> float := SFsqrt prec emax.
Definition eqb : float -> float -> bool := SFeqb.
(** Conversion of an integer, rounding to nearest even. *)
Definition of_Z (z : Z) : float := binary_normalize prec emax z 0 false.
(** The quotient of two integers, each converted first. *)
Definition ratio (p q : Z) : float := div (of_Z p) (of_Z q).
End F32.

Abbreviation float := F32.float.

(** ** The element type

    What the template body asks of [T]: a zero (the [memset] pattern and
    the literal [0]), [==], the conversion [(float)x], and the conversion
    back that [T acc += <float>] performs.

    The class covers [float] and the element types that the usual
    arithmetic conversions take to [float] in [buf[i] - cached_mean] and
    in [acc += d * d]. For a type wider than [float] ([double]) those two
    expressions are computed in [T], which [variance_loop] below does not
    express; the statements about the value of [variance] are made at
    [float]. *)
Class Elem (T : Type) := {
  elem_zero : T;
  elem_eqb : T -> T -> bool;
  to_float : T -> float;
  of_float : float -> T;
}.

(** [RingBuffer<float>]: both conversions are the identity. *)
#[export] Instance Elem_float : Elem float := {|
  elem_zero := F32.zero;
  elem_eqb := F32.eqb;
  to_float := fun x => x;
  of_float := fun x => x;
|}.

(** ** Faults and results *)

Inductive fault : Type :=
| ModByZero      (* [a % 0] *)
| OutOfBounds.   (* an access outside an array *)

Inductive res (A : Type) : Type :=
| Ok (a : A)
| Fault (f : fault).
Arguments Ok {A} a.
Arguments Fault {A} f.

Module RingBuffer.

Section Model.
Context {T : Type} `{Elem T}.

(** The object: [T *buf; size_t size, begin, end; bool wrap]. *)
Record t : Type := mk {
  buf : list T;
  size : Z;
  begin : Z;
  end_ : Z;
  wrap : bool;
}.

(** *** The monad of methods *)

Definition M (A : Type) : Type := t -> res (A * t).

#[export] Instance M_ret : MRet M := fun A a b => Ok (a, b).
#[export] Instance M_bind : MBind M := fun A B f m b =>
  match m b with
  | Ok (a, b') => f a b'
  | Fault e => Fault e
  end.

Definition gets {A} (f : t -> A) : M A := fun b => Ok (f b, b).
Definition raise {A} (e : fault) : M A := fun _ => Fault e.

Definition set_buf (l : list T) : M unit := fun b =>
  Ok (tt, mk l (size b) (begin b) (end_ b) (wrap b)).
Definition set_begin (x : Z) : M unit := fun b =>
  Ok (tt, mk (buf b) (size b) x (end_ b) (wrap b)).
Definition set_end (x : Z) : M unit := fun b =>
  Ok (tt, mk (buf b) (size b) (begin b) x (wrap b)).
Definition set_wrap (w : bool) : M unit := fun b =>
  Ok (tt, mk (buf b) (size b) (begin b) (end_ b) w).

(** [a % n] on [size_t]. *)
Definition umod (a n : Z) : M Z :=
  if n =? 0 then raise ModByZero else mret (a mod n).

(** [arr[i]] as an rvalue. *)
Definition index (arr : list T) (i : Z) : M T :=
  if i <? 0 then raise OutOfBounds else
  match arr !! Z.to_nat i with
  | Some v => mret v
  | None => raise OutOfBounds
  end.

(** [*(buf + i)] as an rvalue. *)
Definition load (i : Z) : M T := arr ← gets buf; index arr i.

(** [*(buf + i) = v]. *)
Definition store (i : Z) (v : T) : M unit :=
  arr ← gets buf;
  if (0 <=? i) && (i <? Z.of_nat (length arr))
  then set_buf (<[Z.to_nat i := v]> arr)
  else raise OutOfBounds.

(** [memcpy(dst + doff, src + soff, k * sizeof(T))] on arrays of [T]:
    the [k] elements of [src] from [soff] replace those of [dst] from
    [doff]. *)
Definition memcpy (dst : list T) (doff : Z) (src : list T) (soff k : Z)
  : M (list T) :=
  if (0 <=? doff) && (0 <=? soff) && (0 <=? k)
     && (doff + k <=? Z.of_nat (length dst))
     && (soff + k <=? Z.of_nat (length src))
  then mret (take (Z.to_nat doff) dst
             ++ take (Z.to_nat k) (drop (Z.to_nat soff) src)
             ++ drop (Z.to_nat (doff + k)) dst)
  else raise OutOfBounds.

(** *** Construction *)

(** [RingBuffer(size)]: zeroed storage, both indices 0, [wrap] false. *)
Definition create (sz : Z) : t :=
  mk (replicate (Z.to_nat sz) elem_zero) sz 0 0 false.

(** *** Occupancy *)

(** [count()]. *)
Definition count (b : t) : Z :=
  if end_ b =? begin b then
    if wrap b then size b else 0
  else if end_ b >? begin b then
    wrap_size (end_ b - begin b)
  else
    wrap_size (size b + end_ b - begin b).

(** [getFree()]. *)
Definition getFree (b : t) : Z := wrap_size (size b - count b).

(** *** Index bookkeeping *)

(** [produce(n)]. *)
Definition produce (n : Z) : M Z :=
  free ← gets getFree;
  let n := Z.min n free in
  if n =? 0 then mret n else
  sz ← gets size;
  e ← gets end_;
  let first_chunk := Z.min n (wrap_size (sz - e)) in
  e1 ← umod (wrap_size (e + first_chunk)) sz;
  set_end e1;;
  (if first_chunk <? n then
     let second_chunk := wrap_size (n - first_chunk) in
     e2 ← umod (wrap_size (e1 + second_chunk)) sz;
     set_end e2
   else mret tt);;
  bg ← gets begin;
  e' ← gets end_;
  (if bg =? e' then set_wrap true else mret tt);;
  mret n.

(** [consume(n)]. *)
Definition consume (n : Z) : M Z :=
  cnt ← gets count;
  let n := Z.min n cnt in
  if n =? 0 then mret n else
  w ← gets wrap;
  (if (w : bool) then set_wrap false else mret tt);;
  sz ← gets size;
  bg ← gets begin;
  let first_chunk := Z.min n (wrap_size (sz - bg)) in
  b1 ← umod (wrap_size (bg + first_chunk)) sz;
  set_begin b1;;
  (if first_chunk <? n then
     let second_chunk := wrap_size (n - first_chunk) in
     b2 ← umod (wrap_size (b1 + second_chunk)) sz;
     set_begin b2
   else mret tt);;
  mret n.

(** [reset()]. *)
Definition reset : M unit :=
  cnt ← gets count;
  consume cnt;;
  mret tt.

(** *** Bulk copies *)

(** [write(data, n)]. *)
Definition write (data : list T) (n : Z) : M Z :=
  free ← gets getFree;
  let n := Z.min n free in
  if n =? 0 then mret n else
  sz ← gets size;
  e ← gets end_;
  let first_chunk := Z.min n (wrap_size (sz - e)) in
  arr ← gets buf;
  arr1 ← memcpy arr e data 0 first_chunk;
  set_buf arr1;;
  e1 ← umod (wrap_size (e + first_chunk)) sz;
  set_end e1;;
  (if first_chunk <? n then
     let second_chunk := wrap_size (n - first_chunk) in
     arr2 ← memcpy arr1 e1 data first_chunk second_chunk;
     set_buf arr2;;
     e2 ← umod (wrap_size (e1 + second_chunk)) sz;
     set_end e2
   else mret tt);;
  bg ← gets begin;
  e' ← gets end_;
  (if bg =? e' then set_wrap true else mret tt);;
  mret n.

(** [read(dest, n)]; the result carries the destination array as the
    call leaves it. *)
Definition read (dest : list T) (n : Z) : M (Z * list T) :=
  cnt ← gets count;
  let n := Z.min n cnt in
  if n =? 0 then mret (n, dest) else
  w ← gets wrap;
  (if (w : bool) then set_wrap false else mret tt);;
  sz ← gets size;
  bg ← gets begin;
  let first_chunk := Z.min n (wrap_size (sz - bg)) in
  arr ← gets buf;
  dest1 ← memcpy dest 0 arr bg first_chunk;
  b1 ← umod (wrap_size (bg + first_chunk)) sz;
  set_begin b1;;
  dest2 ← (if first_chunk <? n then
     let second_chunk := wrap_size (n - first_chunk) in
     d ← memcpy dest1 first_chunk arr b1 second_chunk;
     b2 ← umod (wrap_size (b1 + second_chunk)) sz;
     set_begin b2;;
     mret d
   else mret dest1);
  mret (n, dest2).

(** *** Single elements *)

(** [push(value)]. *)
Definition push (value : T) : M unit :=
  cnt ← gets count;
  sz ← gets size;
  (if cnt =? sz then consume 1;; mret tt else mret tt);;
  e ← gets end_;
  let first_chunk := Z.min 1 (wrap_size (sz - e)) in
  store e value;;
  e1 ← umod (wrap_size (e + first_chunk)) sz;
  set_end e1;;
  bg ← gets begin;
  e' ← gets end_;
  (if bg =? e' then set_wrap true else mret tt).

(** [get_most_recent()]. *)
Definition get_most_recent : M T :=
  e ← gets end_;
  load e.

(** *** Statistics *)

(** The loop shared by [mean], [mean(n)], [zeroCount] and [countValue]:
    [trips] iterations of
    [iterator = (iterator + size - 1) % curr_cnt; acc = body(buf[iterator], acc)]. *)
Fixpoint walk {A} (body : T -> A -> A) (trips : nat) (curr_cnt iterator : Z)
    (acc : A) : M A :=
  match trips with
  | O => mret acc
  | S trips' =>
      sz ← gets size;
      iterator ← umod (wrap_size (wrap_size (iterator + sz) - 1)) curr_cnt;
      x ← load iterator;
      walk body trips' curr_cnt iterator (body x acc)
  end.

(** [subtotal += (float)x]. *)
Definition add_sample (x : T) (subtotal : float) : float :=
  F32.add subtotal (to_float x).

(** [mean()]. *)
Definition mean : M float :=
  iterator ← gets begin;
  curr_cnt ← gets count;
  subtotal ← walk add_sample (Z.to_nat curr_cnt) curr_cnt iterator F32.zero;
  mret (if curr_cnt =? 0 then F32.zero
        else F32.div subtotal (F32.of_Z curr_cnt)).

(** [mean(n)]. *)
Definition mean_n (n : Z) : M float :=
  sz ← gets size;
  let n := if n <? sz then n else sz in
  iterator ← gets begin;
  curr_cnt ← gets count;
  subtotal ← walk add_sample (Z.to_nat n) curr_cnt iterator F32.zero;
  mret (if curr_cnt =? 0 then F32.zero
        else F32.div subtotal (F32.of_Z curr_cnt)).

(** The loop of [variance]: the iterator is advanced as in [walk], the
    element is taken at the loop counter [i]. *)
Fixpoint variance_loop (trips : nat) (curr_cnt : Z) (cached_mean : float)
    (i iterator : Z) (sum_of_squared_deviations : T) : M T :=
  match trips with
  | O => mret sum_of_squared_deviations
  | S trips' =>
      sz ← gets size;
      iterator ← umod (wrap_size (wrap_size (iterator + sz) - 1)) curr_cnt;
      x ← load i;
      let deviation := F32.sub (to_float x) cached_mean in
      variance_loop trips' curr_cnt cached_mean (wrap_size (i + 1)) iterator
        (of_float (F32.add (to_float sum_of_squared_deviations)
                           (F32.mul deviation deviation)))
  end.

(** [variance()]. *)
Definition variance : M float :=
  iterator ← gets begin;
  cached_mean ← mean;
  curr_cnt ← gets count;
  sz ← gets size;
  if sz =? 0 then mret F32.zero else
  sum_of_squared_deviations ←
    variance_loop (Z.to_nat curr_cnt) curr_cnt cached_mean 0 iterator elem_zero;
  mret (F32.div (to_float sum_of_squared_deviations)
                (F32.of_Z (wrap_size (sz - 1)))).

(** [stddev()]: [sqrt] of a [float], rounded back to [float]. *)
Definition stddev : M float := v ← variance; mret (F32.sqrt v).

(** [if (x == value) cnt++]. *)
Definition tally (value x : T) (cnt : Z) : Z :=
  if elem_eqb x value then wrap_size (cnt + 1) else cnt.

(** [zeroCount()]. *)
Definition zeroCount : M Z :=
  iterator ← gets begin;
  curr_cnt ← gets count;
  walk (tally elem_zero) (Z.to_nat curr_cnt) curr_cnt iterator 0.

(** [countValue(value)]. *)
Definition countValue (value : T) : M Z :=
  iterator ← gets begin;
  curr_cnt ← gets count;
  walk (tally value) (Z.to_nat curr_cnt) curr_cnt iterator 0.

(** *** Diagnostics *)

(** The loop of [dump]: [iterator = (iterator + size - 1) % size]; both
    branches of the body are empty, the logging calls being commented
    out. *)
Fixpoint dump_loop (trips : nat) (iterator : Z) : M unit :=
  match trips with
  | O => mret tt
  | S trips' =>
      sz ← gets size;
      iterator ← umod (wrap_size (wrap_size (iterator + sz) - 1)) sz;
      dump_loop trips' iterator
  end.

(** [dump()]. *)
Definition dump : M unit :=
  iterator ← gets begin;
  sz ← gets size;
  dump_loop (Z.to_nat sz) iterator.

(** ** Well-formed objects and the logical contents *)

(** The class invariant: the storage has [size] elements, both indices
    address it (they are 0 when there is no storage), and [wrap] is only
    set when the indices coincide. *)
Record wf (b : t) : Prop := {
  wf_size : is_size_t (size b);
  wf_buf : Z.of_nat (length (buf b)) = size b;
  wf_begin : 0 <= begin b < Z.max 1 (size b);
  wf_end : 0 <= end_ b < Z.max 1 (size b);
  wf_wrap : wrap b = true -> begin b = end_ b /\ 0 < size b;
}.

#[local] Instance T_inhabited : Inhabited T := populate elem_zero.

(** The physical position of the [i]-th oldest element. *)
Definition position (b : t) (i : Z) : Z := (begin b + i) mod size b.

(** The physical positions of the occupied elements, oldest first. *)
Definition occupied_positions (b : t) : list Z :=
  position b <$> seqZ 0 (count b).

(** The occupied elements, oldest first. *)
Definition occupied (b : t) : list T :=
  (fun p => buf b !!! Z.to_nat p) <$> occupied_positions b.

(** *** Histories *)

(** The mutating calls a client can make. *)
Inductive op : Type :=
| Push (value : T)
| Write (data : list T) (n : Z)
| Produce (n : Z)
| Consume (n : Z)
| Read (dest : list T) (n : Z)
| Reset.

Definition exec (o : op) : M unit :=
  match o with
  | Push value => push value
  | Write data n => write data n;; mret tt
  | Produce n => produce n;; mret tt
  | Consume n => consume n;; mret tt
  | Read dest n => read dest n;; mret tt
  | Reset => reset
  end.

(** A call is well-formed when its count is a [size_t] value and the
    array it passes has at least that many elements. *)
Definition op_args_ok (o : op) : Prop :=
  match o with
  | Write arr n | Read arr n => is_size_t n /\ n <= Z.of_nat (length arr)
  | Produce n | Consume n => is_size_t n
  | Push _ | Reset => True
  end.

(** Running a history, first call first. *)
Fixpoint run (ops : list op) : M unit :=
  match ops with
  | [] => mret tt
  | o :: ops' => exec o;; run ops'
  end.

(** The number of elements held after a call, in the words of the
    specification: [Push] evicts one element when the buffer is at full
    occupancy and then adds one; [Write] and [Produce] add
    [min(n, free)]; [Consume] and [Read] remove [min(n, occupied)];
    [Reset] removes everything. *)
Definition spec_count_after (capacity held : Z) (o : op) : Z :=
  match o with
  | Push _ => (if held =? capacity then held - 1 else held) + 1
  | Write _ n | Produce n => held + Z.min n (capacity - held)
  | Consume n | Read _ n => held - Z.min n held
  | Reset => 0
  end.

(** The number of elements a fresh buffer of the given capacity holds
    after a history. *)
Definition spec_count (capacity : Z) (ops : list op) : Z :=
  foldl (spec_count_after capacity) 0 ops.

(** The states a fresh buffer can reach through calls that return. *)
Inductive reachable : t -> Prop :=
| reach_create sz : is_size_t sz -> reachable (create sz)
| reach_step o b b' :
    reachable b -> op_args_ok o -> exec o b = Ok (tt, b') -> reachable b'.

(** *** The slots the statistics loop reads *)

(** The successive values of [iterator] in [walk], that is the slots the
    loop reads, in the order it reads them. *)
Fixpoint walk_reads (trips : nat) (curr_cnt iterator : Z) : M (list Z) :=
  match trips with
  | O => mret []
  | S trips' =>
      sz ← gets size;
      iterator ← umod (wrap_size (wrap_size (iterator + sz) - 1)) curr_cnt;
      rest ← walk_reads trips' curr_cnt iterator;
      mret (iterator :: rest)
  end.

(** The slots read by [mean], [zeroCount] and [countValue]. *)
Definition stat_reads : M (list Z) :=
  iterator ← gets begin;
  curr_cnt ← gets count;
  walk_reads (Z.to_nat curr_cnt) curr_cnt iterator.

(** *** The statistics the specification prescribes

    These follow the specification's words, over the occupied elements
    oldest first; sums are accumulated in that order. *)

(** The arithmetic mean of a list of samples, 0 for none. *)
Definition spec_mean_of (xs : list T) : float :=
  match xs with
  | [] => F32.zero
  | _ => F32.div (foldl (fun s x => F32.add s (to_float x)) F32.zero xs)
                 (F32.of_Z (Z.of_nat (length xs)))
  end.

(** Mean(): the mean of all occupied elements. *)
Definition spec_mean (b : t) : float := spec_mean_of (occupied b).

(** Mean(n): the mean of the most recent [min(n, capacity)] elements, a
    suffix of the occupied range. *)
Definition spec_mean_n (n : Z) (b : t) : float :=
  let window := Z.to_nat (Z.min n (size b)) in
  spec_mean_of (drop (length (occupied b) - window) (occupied b)).

(** Variance(): the sum of squared deviations from Mean() divided by
    Count() - 1, and 0 when Count() <= 1. *)
Definition spec_variance (b : t) : float :=
  if count b <=? 1 then F32.zero else
  let m := spec_mean b in
  let sq_dev x := let d := F32.sub (to_float x) m in F32.mul d d in
  F32.div (foldl (fun s x => F32.add s (sq_dev x)) F32.zero (occupied b))
          (F32.of_Z (count b - 1)).

(** CountValue(value): the number of occupied elements equal to [value]. *)
Definition spec_countValue (value : T) (b : t) : Z :=
  Z.of_nat (length (filter (fun x => elem_eqb x value = true) (occupied b))).

(** ZeroCount(): the number of occupied elements equal to zero. *)
Definition spec_zeroCount (b : t) : Z := spec_countValue elem_zero b.

End Model.
End RingBuffer.

(** ** Concrete buffers of [RingBuffer<float>] *)

Module Examples.
Import RingBuffer.

(** The float with an integer value. *)
Definition fl (z : Z) : float := F32.of_Z z.

(** Capacity 5 after pushing 1, 2, 3, 4, 5. *)
Definition full5 : t :=
  mk [fl 1; fl 2; fl 3; fl 4; fl 5] 5 0 0 true.

(** Capacity 4 after pushing 1, 2. *)
Definition two_of_4 : t :=
  mk [fl 1; fl 2; fl 0; fl 0] 4 0 2 false.

(** Capacity 1 after pushing 3. *)
Definition one_of_1 : t := mk [fl 3] 1 0 0 true.

(** Capacity 4 after pushing 0, 0, 7, 9 and consuming two elements: the
    occupied slots are 2 and 3. *)
Definition tail_of_4 : t :=
  mk [fl 0; fl 0; fl 7; fl 9] 4 2 0 false.

(** Capacity 4 after pushing 1, 2, 3: nothing consumed, [begin] is 0. *)
Definition three_of_4 : t :=
  mk [fl 1; fl 2; fl 3; fl 0] 4 0 3 false.

(** Capacity 3 after pushing 1, 2, 3, 4. *)
Definition wrapped3 : t :=
  mk [fl 4; fl 2; fl 3] 3 1 1 true.

End Examples.

(** * Properties *)

Module RingBufferFacts.
Import RingBuffer.

(** ** Arithmetic on indices *)

Lemma wrap_size_small x : is_size_t x -> wrap_size x = x.
Proof. unfold is_size_t, wrap_size. intros Hx. by apply Z.mod_small. Qed.

(** One reduction step suffices below twice the modulus. *)
Lemma mod_once sz x :
  0 < sz -> 0 <= x < 2 * sz ->
  x mod sz = if x <? sz then x else x - sz.
Proof.
  intros Hsz Hx. destruct (Z.ltb_spec x sz).
  - apply Z.mod_small. lia.
  - symmetry. apply (Z.mod_unique_pos _ _ 1); lia.
Qed.

(** The same for a difference of two indices. *)
Lemma mod_sub_once sz x :
  0 < sz -> - sz <= x < sz ->
  x mod sz = if x <? 0 then x + sz else x.
Proof.
  intros Hsz Hx. destruct (Z.ltb_spec x 0).
  - symmetry. apply (Z.mod_unique_pos _ _ (-1)); lia.
  - apply Z.mod_small. lia.
Qed.

Section Facts.
Context {T : Type} `{Elem T}.
Implicit Types b : t (T:=T).
#[local] Existing Instance T_inhabited.

Lemma count_range b : wf b -> 0 <= count b <= size b.
Proof.
  intros [Hs Hb Hbg He Hw]. unfold count, is_size_t, wrap_size, SIZE_BITS in *.
  destruct (Z.eqb_spec (end_ b) (begin b)).
  - destruct (wrap b); lia.
  - destruct (Z.gtb_spec (end_ b) (begin b)); rewrite Z.mod_small; lia.
Qed.

Lemma count_explicit b :
  wf b ->
  count b = if wrap b then size b
            else if begin b <=? end_ b then end_ b - begin b
            else size b + end_ b - begin b.
Proof.
  intros [Hs Hb Hbg He Hw]. unfold count, is_size_t, wrap_size, SIZE_BITS in *.
  destruct (Z.eqb_spec (end_ b) (begin b)) as [Heq|Hne].
  - destruct (wrap b); [done|]. destruct (Z.leb_spec (begin b) (end_ b)); lia.
  - destruct (wrap b); [destruct Hw; [done|lia]|].
    destruct (Z.gtb_spec (end_ b) (begin b)), (Z.leb_spec (begin b) (end_ b));
      try lia; rewrite Z.mod_small; lia.
Qed.

Lemma getFree_explicit b : wf b -> getFree b = size b - count b.
Proof.
  intros Hwf. unfold getFree. apply wrap_size_small.
  pose proof (count_range b Hwf). destruct Hwf as [Hs _ _ _ _].
  unfold is_size_t in *. lia.
Qed.

(** The two-chunk index update of [produce], [consume], [write] and
    [read] adds [k] modulo [sz]. *)
Lemma first_chunk_advance sz i k :
  is_size_t sz -> 0 <= i < sz -> 0 < k <= sz ->
  let first_chunk := Z.min k (wrap_size (sz - i)) in
  first_chunk = Z.min k (sz - i) /\
  (wrap_size (i + first_chunk)) mod sz =
    (if first_chunk <? k then 0 else (i + k) mod sz) /\
  ((first_chunk <? k) = true ->
   wrap_size (k - first_chunk) = k - first_chunk /\
   (wrap_size (wrap_size (k - first_chunk))) mod sz = (i + k) mod sz).
Proof.
  intros Hsz Hi Hk. unfold is_size_t in Hsz.
  rewrite (wrap_size_small (sz - i)) by (unfold is_size_t; lia).
  cbn zeta. split; [done|].
  destruct (Z.ltb_spec (Z.min k (sz - i)) k) as [Hlt|Hge].
  - assert (Z.min k (sz - i) = sz - i) as -> by lia.
    replace (i + (sz - i)) with sz by lia.
    rewrite (wrap_size_small sz) by done.
    rewrite Z.mod_same by lia. split; [done|]. intros _.
    rewrite !(wrap_size_small (k - (sz - i))) by (unfold is_size_t; lia).
    rewrite (mod_once sz (i + k)) by lia.
    destruct (Z.ltb_spec (i + k) sz); [lia|].
    rewrite Z.mod_small by lia. lia.
  - assert (Z.min k (sz - i) = k) as -> by lia.
    rewrite (wrap_size_small (i + k)) by (unfold is_size_t; lia).
    split; [done|]. intros; discriminate.
Qed.

Lemma produce_spec b n :
  wf b -> is_size_t n ->
  let k := Z.min n (getFree b) in
  let e' := (end_ b + k) mod size b in
  produce n b =
    Ok (k, if k =? 0 then b
           else mk (buf b) (size b) (begin b) e'
                   (if begin b =? e' then true else wrap b)).
Proof.
  intros Hwf Hn.
  pose proof (getFree_explicit b Hwf) as Hfree.
  pose proof (count_range b Hwf) as Hcnt.
  unfold produce, mbind, M_bind, gets, mret, M_ret; cbn.
  remember (Z.min n (getFree b)) as k eqn:Ek.
  assert (0 <= k <= size b - count b) as Hk by (unfold is_size_t in Hn; lia).
  clear Ek Hfree.
  destruct Hwf as [Hs Hb Hbg He Hw]. destruct b as [bf sz bg e w]; cbn in *.
  destruct (Z.eqb_spec k 0) as [->|Hk0]; [reflexivity|].
  pose proof (first_chunk_advance sz e k Hs ltac:(lia) ltac:(lia)) as (Hfc & H1 & H2).
  assert ((sz =? 0) = false) as Hz by lia.
  unfold umod, mret, M_ret. cbn. rewrite Hz, H1.
  destruct (Z.ltb_spec (Z.min k (wrap_size (sz - e))) k) as [Hlt|Hge]; cbn.
  - destruct (H2 eq_refl) as [H3 H4]. rewrite Z.add_0_l, H4.
    by destruct (bg =? (e + k) mod sz).
  - by destruct (bg =? (e + k) mod sz).
Qed.

Lemma consume_spec b n :
  wf b -> is_size_t n ->
  let k := Z.min n (count b) in
  consume n b =
    Ok (k, if k =? 0 then b
           else mk (buf b) (size b) ((begin b + k) mod size b) (end_ b) false).
Proof.
  intros Hwf Hn.
  pose proof (count_range b Hwf) as Hcnt.
  unfold consume, mbind, M_bind, gets, mret, M_ret; cbn.
  remember (Z.min n (count b)) as k eqn:Ek.
  assert (0 <= k <= count b) as Hk by (unfold is_size_t in Hn; lia).
  clear Ek.
  destruct Hwf as [Hs Hb Hbg He Hw]. destruct b as [bf sz bg e w]; cbn in *.
  destruct (Z.eqb_spec k 0) as [->|Hk0]; [reflexivity|].
  pose proof (first_chunk_advance sz bg k Hs ltac:(lia) ltac:(lia)) as (Hfc & H1 & H2).
  assert ((sz =? 0) = false) as Hz by lia.
  unfold umod, mret, M_ret. destruct w; cbn; rewrite Hz, H1.
  all: destruct (Z.ltb_spec (Z.min k (wrap_size (sz - bg))) k) as [Hlt|Hge]; cbn.
  all: try (destruct (H2 eq_refl) as [H3 H4]; rewrite Z.add_0_l, H4); done.
Qed.

(** What [memcpy] leaves in the destination. *)
Lemma memcpy_spec (dst src : list T) doff soff k b :
  0 <= doff -> 0 <= soff -> 0 <= k ->
  doff + k <= Z.of_nat (length dst) ->
  soff + k <= Z.of_nat (length src) ->
  exists r,
    memcpy dst doff src soff k b = Ok (r, b) /\
    length r = length dst /\
    forall p : nat,
      r !! p = if (doff <=? Z.of_nat p) && (Z.of_nat p <? doff + k)
               then src !! Z.to_nat (soff + (Z.of_nat p - doff))
               else dst !! p.
Proof.
  intros Hd Hs Hk Hdl Hsl. unfold memcpy.
  assert ((0 <=? doff) && (0 <=? soff) && (0 <=? k)
          && (doff + k <=? Z.of_nat (length dst))
          && (soff + k <=? Z.of_nat (length src)) = true) as ->.
  { repeat (apply andb_true_intro; split); lia. }
  eexists; split; [reflexivity|]. split.
  - rewrite !length_app, !length_take, !length_drop. lia.
  - intros p.
    destruct (Z.leb_spec doff (Z.of_nat p)) as [Hle|Hgt]; cbn [andb].
    + rewrite lookup_app_r by (rewrite length_take; lia).
      rewrite length_take_le by lia.
      destruct (Z.ltb_spec (Z.of_nat p) (doff + k)) as [Hlt|Hge].
      * rewrite lookup_app_l by (rewrite length_take, length_drop; lia).
        rewrite lookup_take_lt by lia. rewrite lookup_drop. f_equal. lia.
      * rewrite lookup_app_r by (rewrite length_take, length_drop; lia).
        rewrite length_take_le by (rewrite length_drop; lia).
        rewrite lookup_drop. f_equal. lia.
    + rewrite lookup_app_l by (rewrite length_take; lia).
      apply lookup_take_lt. lia.
Qed.

Lemma write_spec b data n :
  wf b -> is_size_t n ->
  let k := Z.min n (getFree b) in
  let e' := (end_ b + k) mod size b in
  k <= Z.of_nat (length data) ->
  exists bf',
    write data n b =
      Ok (k, if k =? 0 then b
             else mk bf' (size b) (begin b) e'
                     (if begin b =? e' then true else wrap b)) /\
    length bf' = length (buf b) /\
    forall p : nat,
      Z.of_nat p < size b ->
      bf' !! p = if (Z.of_nat p - end_ b) mod size b <? k
                 then data !! Z.to_nat ((Z.of_nat p - end_ b) mod size b)
                 else buf b !! p.
Proof.
  intros Hwf Hn.
  pose proof (getFree_explicit b Hwf) as Hfree.
  pose proof (count_range b Hwf) as Hcnt.
  unfold write, mbind, M_bind, gets, mret, M_ret; cbn.
  remember (Z.min n (getFree b)) as k eqn:Ek.
  assert (0 <= k <= size b - count b) as Hk by (unfold is_size_t in Hn; lia).
  clear Ek Hfree. intros Hdata.
  destruct Hwf as [Hs Hb Hbg He Hw]. destruct b as [bf sz bg e w]; cbn in *.
  destruct (Z.eqb_spec k 0) as [->|Hk0].
  { exists bf. split; [reflexivity|]. split; [done|]. intros p Hp.
    destruct (Z.ltb_spec ((Z.of_nat p - e) mod sz) 0) as [Hneg|_]; [|done].
    pose proof (Z.mod_pos_bound (Z.of_nat p - e) sz). lia. }
  pose proof (first_chunk_advance sz e k Hs ltac:(lia) ltac:(lia)) as (Hfc & H1 & H2).
  assert ((sz =? 0) = false) as Hz by lia.
  destruct (memcpy_spec bf data e 0 (Z.min k (wrap_size (sz - e)))
              (mk bf sz bg e w)) as (arr1 & Hm1 & Hl1 & Hlk1); [lia..|].
  cbn [buf size begin end_ wrap]. rewrite Hm1. unfold umod, mret, M_ret, set_buf. cbn. rewrite Hz, H1.
  destruct (Z.ltb_spec (Z.min k (wrap_size (sz - e))) k) as [Hlt|Hge]; cbn.
  - destruct (H2 eq_refl) as [H3 H4].
    destruct (memcpy_spec arr1 data 0 (Z.min k (wrap_size (sz - e)))
                (wrap_size (k - Z.min k (wrap_size (sz - e))))
                (mk arr1 sz bg 0 w)) as (arr2 & Hm2 & Hl2 & Hlk2); [lia..|].
    rewrite Hm2. cbn. rewrite Z.add_0_l, H4.
    exists arr2. split; [by destruct (bg =? (e + k) mod sz)|].
    split; [congruence|]. intros p Hp.
    rewrite Hlk2, Hlk1, H3, Hfc.
    rewrite (mod_sub_once sz (Z.of_nat p - e)) by lia.
    assert (Z.min k (sz - e) = sz - e) as -> by lia.
    destruct (Z.ltb_spec (Z.of_nat p - e) 0),
             (Z.leb_spec e (Z.of_nat p)),
             (Z.leb_spec 0 (Z.of_nat p)),
             (Z.ltb_spec (Z.of_nat p) (0 + (k - (sz - e)))),
             (Z.ltb_spec (Z.of_nat p) (e + (sz - e)));
      try lia; cbn [andb].
    all: try (destruct (Z.ltb_spec (Z.of_nat p - e + sz) k); try lia).
    all: try (destruct (Z.ltb_spec (Z.of_nat p - e) k); try lia).
    all: first [done | f_equal; lia].
  - exists arr1. split; [by destruct (bg =? (e + k) mod sz)|].
    split; [done|]. intros p Hp.
    rewrite Hlk1, Hfc.
    rewrite (mod_sub_once sz (Z.of_nat p - e)) by lia.
    assert (Z.min k (sz - e) = k) as -> by lia.
    destruct (Z.ltb_spec (Z.of_nat p - e) 0),
             (Z.leb_spec e (Z.of_nat p)),
             (Z.ltb_spec (Z.of_nat p) (e + k));
      try lia; cbn [andb].
    all: try (destruct (Z.ltb_spec (Z.of_nat p - e + sz) k); try lia).
    all: try (destruct (Z.ltb_spec (Z.of_nat p - e) k); try lia).
    all: first [done | f_equal; lia].
Qed.

Lemma clear_wrap_run b :
  (if wrap b then set_wrap false else fun b0 => Ok (tt, b0)) b =
  Ok (tt, mk (buf b) (size b) (begin b) (end_ b) false).
Proof. by destruct b as [? ? ? ? []]. Qed.

Lemma read_spec b dest n :
  wf b -> is_size_t n ->
  let k := Z.min n (count b) in
  k <= Z.of_nat (length dest) ->
  exists dest',
    read dest n b =
      Ok ((k, dest'),
          if k =? 0 then b
          else mk (buf b) (size b) ((begin b + k) mod size b) (end_ b) false) /\
    length dest' = length dest /\
    forall j : nat,
      dest' !! j = if Z.of_nat j <? k
                   then buf b !! Z.to_nat ((begin b + Z.of_nat j) mod size b)
                   else dest !! j.
Proof.
  intros Hwf Hn.
  pose proof (count_range b Hwf) as Hcnt.
  unfold read, mbind, M_bind, gets, mret, M_ret; cbn.
  remember (Z.min n (count b)) as k eqn:Ek.
  assert (0 <= k <= count b) as Hk by (unfold is_size_t in Hn; lia).
  clear Ek. intros Hdest.
  destruct Hwf as [Hs Hb Hbg He Hw]. destruct b as [bf sz bg e w]; cbn in *.
  destruct (Z.eqb_spec k 0) as [->|Hk0].
  { exists dest. split; [reflexivity|]. split; [done|]. intros j.
    destruct (Z.ltb_spec (Z.of_nat j) 0); [lia|done]. }
  pose proof (first_chunk_advance sz bg k Hs ltac:(lia) ltac:(lia)) as (Hfc & H1 & H2).
  assert ((sz =? 0) = false) as Hz by lia.
  rewrite clear_wrap_run. cbn [buf size begin end_ wrap].
  destruct (memcpy_spec dest bf 0 bg (Z.min k (wrap_size (sz - bg)))
              (mk bf sz bg e false)) as (dest1 & Hm1 & Hl1 & Hlk1); [lia..|].
  rewrite Hm1. unfold umod, mret, M_ret. cbn. rewrite Hz, H1.
  destruct (Z.ltb_spec (Z.min k (wrap_size (sz - bg))) k) as [Hlt|Hge]; cbn.
  - destruct (H2 eq_refl) as [H3 H4].
    destruct (memcpy_spec dest1 bf (Z.min k (wrap_size (sz - bg))) 0
                (wrap_size (k - Z.min k (wrap_size (sz - bg))))
                (mk bf sz 0 e false)) as (d & Hm2 & Hl2 & Hlk2); [lia..|].
    rewrite Hm2. cbn. rewrite Z.add_0_l, H4.
    exists d. split; [done|]. split; [congruence|]. intros j.
    rewrite Hlk2, Hlk1, H3, Hfc.
    assert (Z.min k (sz - bg) = sz - bg) as -> by lia.
    destruct (Z.ltb_spec (Z.of_nat j) k).
    + rewrite (mod_once sz (bg + Z.of_nat j)) by lia.
      destruct (Z.leb_spec (sz - bg) (Z.of_nat j)),
               (Z.ltb_spec (Z.of_nat j) (sz - bg + (k - (sz - bg)))),
               (Z.leb_spec 0 (Z.of_nat j)),
               (Z.ltb_spec (Z.of_nat j) (0 + (sz - bg))),
               (Z.ltb_spec (bg + Z.of_nat j) sz);
        try lia; cbn [andb]; f_equal; lia.
    + destruct (Z.leb_spec (sz - bg) (Z.of_nat j)),
               (Z.ltb_spec (Z.of_nat j) (sz - bg + (k - (sz - bg)))),
               (Z.leb_spec 0 (Z.of_nat j)),
               (Z.ltb_spec (Z.of_nat j) (0 + (sz - bg)));
        try lia; cbn [andb]; done.
  - exists dest1. split; [done|]. split; [done|]. intros j.
    rewrite Hlk1, Hfc.
    assert (Z.min k (sz - bg) = k) as -> by lia.
    destruct (Z.ltb_spec (Z.of_nat j) k).
    + rewrite (Z.mod_small (bg + Z.of_nat j)) by lia.
      destruct (Z.leb_spec 0 (Z.of_nat j)),
               (Z.ltb_spec (Z.of_nat j) (0 + k));
        try lia; cbn [andb]; f_equal; lia.
    + destruct (Z.leb_spec 0 (Z.of_nat j)),
               (Z.ltb_spec (Z.of_nat j) (0 + k));
        try lia; cbn [andb]; done.
Qed.

Lemma push_spec b value :
  wf b -> 0 < size b ->
  let bg' := if count b =? size b then (begin b + 1) mod size b else begin b in
  let e' := (end_ b + 1) mod size b in
  push value b =
    Ok (tt, mk (<[Z.to_nat (end_ b) := value]> (buf b)) (size b) bg' e'
               (if bg' =? e' then true else false)).
Proof.
  intros Hwf Hpos.
  pose proof (count_range b Hwf) as Hcnt.
  pose proof (count_explicit b Hwf) as Hcount.
  pose proof (consume_spec b 1 Hwf ltac:(unfold is_size_t, SIZE_BITS; lia)) as Hcons.
  cbn zeta in Hcons |- *.
  unfold push, mbind, M_bind, gets, mret, M_ret.
  destruct (Z.eqb_spec (count b) (size b)) as [Hfull|Hnot].
  - rewrite Hcons. replace (Z.min 1 (count b)) with 1 by lia. cbn.
    destruct Hwf as [Hs Hb Hbg He Hw]. destruct b as [bf sz bg e w]; cbn in *.
    unfold store, mbind, M_bind, gets, umod, mret, M_ret; cbn.
    assert ((0 <=? e) && (e <? Z.of_nat (length bf)) = true) as ->
      by (apply andb_true_intro; split; lia).
    cbn. assert ((sz =? 0) = false) as -> by lia.
    rewrite (wrap_size_small (sz - e)) by (unfold is_size_t in *; lia).
    replace (Z.min 1 (sz - e)) with 1 by lia.
    rewrite (wrap_size_small (e + 1)) by (unfold is_size_t in *; lia).
    cbn. by destruct ((bg + 1) mod sz =? (e + 1) mod sz).
  - destruct Hwf as [Hs Hb Hbg He Hw]. destruct b as [bf sz bg e w]; cbn in *.
    unfold store, mbind, M_bind, gets, umod, mret, M_ret; cbn.
    assert ((0 <=? e) && (e <? Z.of_nat (length bf)) = true) as ->
      by (apply andb_true_intro; split; lia).
    cbn. assert ((sz =? 0) = false) as -> by lia.
    rewrite (wrap_size_small (sz - e)) by (unfold is_size_t in *; lia).
    replace (Z.min 1 (sz - e)) with 1 by lia.
    rewrite (wrap_size_small (e + 1)) by (unfold is_size_t in *; lia).
    cbn. destruct w; [lia|]. by destruct (bg =? (e + 1) mod sz).
Qed.

Lemma create_wf sz : is_size_t sz -> wf (create (T:=T) sz).
Proof.
  intros Hsz. unfold is_size_t in Hsz.
  split; cbn; [done| |lia|lia|done].
  rewrite length_replicate. lia.
Qed.

(** Moving [end] forward by [k] free slots. *)
Lemma advance_end_wf b (bf' : list T) k :
  wf b -> length bf' = length (buf b) -> 0 < k <= size b - count b ->
  let e' := (end_ b + k) mod size b in
  let b' := mk bf' (size b) (begin b) e'
               (if begin b =? e' then true else wrap b) in
  wf b' /\ count b' = count b + k.
Proof.
  intros Hwf Hlen Hk.
  pose proof (count_range b Hwf) as Hcnt.
  pose proof (count_explicit b Hwf) as Hcount.
  destruct Hwf as [Hs Hb Hbg He Hw]. destruct b as [bf sz bg e w]; cbn in *.
  unfold is_size_t, SIZE_BITS in Hs.
  assert (w = false) as -> by (destruct w; [lia|done]).
  rewrite Hcount in Hk, Hcnt |- *. clear Hcount.
  rewrite (mod_once sz (e + k)) by (destruct (bg <=? e); lia).
  unfold count, wrap_size, SIZE_BITS; cbn.
  destruct (Z.leb_spec bg e), (Z.ltb_spec (e + k) sz).
  all: repeat match goal with
       | |- context [?x =? ?y] => destruct (Z.eqb_spec x y)
       | |- context [?x >? ?y] => destruct (Z.gtb_spec x y)
       end; try lia.
  all: split; [split; cbn; try lia; try done; intros; lia|].
  all: try rewrite Z.mod_small; try lia.
Qed.

(** Moving [begin] forward by [k] occupied slots. *)
Lemma advance_begin_wf b k :
  wf b -> 0 < k <= count b ->
  let b' := mk (buf b) (size b) ((begin b + k) mod size b) (end_ b) false in
  wf b' /\ count b' = count b - k.
Proof.
  intros Hwf Hk.
  pose proof (count_range b Hwf) as Hcnt.
  pose proof (count_explicit b Hwf) as Hcount.
  destruct Hwf as [Hs Hb Hbg He Hw]. destruct b as [bf sz bg e w]; cbn in *.
  unfold is_size_t, SIZE_BITS in Hs.
  rewrite Hcount in Hk, Hcnt |- *. clear Hcount.
  rewrite (mod_once sz (bg + k)) by (destruct w, (bg <=? e); lia).
  unfold count, wrap_size, SIZE_BITS; cbn.
  destruct w; [destruct Hw as [Hbe _]; [done|]|].
  all: destruct (Z.leb_spec bg e), (Z.ltb_spec (bg + k) sz).
  all: repeat match goal with
       | |- context [?x =? ?y] => destruct (Z.eqb_spec x y)
       | |- context [?x >? ?y] => destruct (Z.gtb_spec x y)
       end; try lia.
  all: split; [split; cbn; try lia; try done; intros; lia|].
  all: try rewrite Z.mod_small; lia.
Qed.

(** [push] on a buffer without storage writes outside the block. *)
Lemma push_zero_capacity b value :
  wf b -> size b = 0 -> push value b = Fault OutOfBounds.
Proof.
  intros [Hs Hb Hbg He Hw] Hz. destruct b as [bf sz bg e w]; cbn in *. subst sz.
  destruct bf; [|done].
  assert (bg = 0) as -> by lia. assert (e = 0) as -> by lia.
  destruct w; [destruct Hw; [done|lia]|]. reflexivity.
Qed.

Lemma push_wf b value b' :
  wf b -> push value b = Ok (tt, b') ->
  0 < size b /\ wf b' /\ size b' = size b /\
  count b' = (if count b =? size b then count b - 1 else count b) + 1.
Proof.
  intros Hwf Hrun.
  pose proof (count_range b Hwf) as Hcnt.
  assert (0 < size b) as Hpos.
  { destruct (Z.eq_dec (size b) 0) as [Hz|Hnz].
    - rewrite (push_zero_capacity b value Hwf Hz) in Hrun. discriminate.
    - destruct Hwf as [Hs _ _ _ _]. unfold is_size_t in Hs. lia. }
  rewrite (push_spec b value Hwf Hpos) in Hrun. cbn zeta in Hrun.
  injection Hrun as <-. split; [done|].
  destruct (Z.eqb_spec (count b) (size b)) as [Hfull|Hnot].
  - destruct (advance_begin_wf b 1 Hwf ltac:(lia)) as [Hwf1 Hc1].
    cbn zeta in Hwf1, Hc1.
    destruct (advance_end_wf _ (<[Z.to_nat (end_ b) := value]> (buf b)) 1 Hwf1)
      as [Hwf2 Hc2]; [by rewrite length_insert|cbn; lia|].
    cbn in Hwf2, Hc2. split; [exact Hwf2|]. split; [done|]. lia.
  - pose proof (count_explicit b Hwf) as Hcount.
    destruct (advance_end_wf b (<[Z.to_nat (end_ b) := value]> (buf b)) 1 Hwf)
      as [Hwf2 Hc2]; [by rewrite length_insert|lia|].
    cbn zeta in Hwf2, Hc2.
    assert (wrap b = false) as Hw
      by (destruct (wrap b); [lia|done]).
    rewrite Hw in Hwf2, Hc2. split; [exact Hwf2|]. split; [done|]. lia.
Qed.

(** Every well-formed call that returns preserves the invariant and
    changes the occupancy as the specification prescribes. *)
Lemma exec_wf o b b' :
  wf b -> op_args_ok o -> exec o b = Ok (tt, b') ->
  wf b' /\ size b' = size b /\
  count b' = spec_count_after (size b) (count b) o.
Proof.
  intros Hwf Hargs Hrun.
  pose proof (count_range b Hwf) as Hcnt.
  pose proof (getFree_explicit b Hwf) as Hfree.
  destruct o as [value|data n|n|n|dest n|]; cbn in Hargs, Hrun |- *.
  - destruct (push_wf b value b' Hwf Hrun) as (_ & ? & ? & ?). done.
  - destruct Hargs as [Hn Hlen].
    destruct (write_spec b data n Hwf Hn) as (bf' & Hw & Hl & _); [lia|].
    unfold mbind, M_bind in Hrun. rewrite Hw in Hrun. clear Hw.
    injection Hrun as <-. rewrite Hfree.
    destruct (Z.eqb_spec (Z.min n (size b - count b)) 0) as [->|Hk].
    + split; [done|]. split; [done|lia].
    + destruct (advance_end_wf b bf' (Z.min n (size b - count b)) Hwf Hl)
        as [Hwf' Hc']; [unfold is_size_t in Hn; lia|]. done.
  - pose proof (produce_spec b n Hwf Hargs) as Hp.
    unfold mbind, M_bind in Hrun. rewrite Hp in Hrun. clear Hp.
    injection Hrun as <-. rewrite Hfree.
    destruct (Z.eqb_spec (Z.min n (size b - count b)) 0) as [->|Hk].
    + split; [done|]. split; [done|lia].
    + destruct (advance_end_wf b (buf b) (Z.min n (size b - count b)) Hwf eq_refl)
        as [Hwf' Hc']; [unfold is_size_t in Hargs; lia|]. done.
  - pose proof (consume_spec b n Hwf Hargs) as Hp.
    unfold mbind, M_bind in Hrun. rewrite Hp in Hrun. clear Hp.
    injection Hrun as <-.
    destruct (Z.eqb_spec (Z.min n (count b)) 0) as [->|Hk].
    + split; [done|]. split; [done|lia].
    + destruct (advance_begin_wf b (Z.min n (count b)) Hwf)
        as [Hwf' Hc']; [unfold is_size_t in Hargs; lia|]. done.
  - destruct Hargs as [Hn Hlen].
    destruct (read_spec b dest n Hwf Hn) as (dest' & Hr & _); [lia|].
    unfold mbind, M_bind in Hrun. rewrite Hr in Hrun. clear Hr.
    injection Hrun as <-.
    destruct (Z.eqb_spec (Z.min n (count b)) 0) as [->|Hk].
    + split; [done|]. split; [done|lia].
    + destruct (advance_begin_wf b (Z.min n (count b)) Hwf)
        as [Hwf' Hc']; [unfold is_size_t in Hn; lia|]. done.
  - assert (is_size_t (count b)) as Hc.
    { destruct Hwf as [Hs _ _ _ _]. unfold is_size_t in *. lia. }
    pose proof (consume_spec b (count b) Hwf Hc) as Hp.
    unfold reset, mbind, M_bind, gets in Hrun. rewrite Hp in Hrun. clear Hp.
    injection Hrun as <-. rewrite Z.min_id.
    destruct (Z.eqb_spec (count b) 0) as [Hz|Hk].
    + split; [done|]. split; [done|lia].
    + destruct (advance_begin_wf b (count b) Hwf)
        as [Hwf' Hc']; [lia|]. split; [done|]. split; [done|]. lia.
Qed.

Lemma reachable_wf b : reachable b -> wf b.
Proof.
  induction 1 as [sz Hsz|o b b' _ IH Hargs Hrun].
  - by apply create_wf.
  - by destruct (exec_wf o b b' IH Hargs Hrun).
Qed.

Lemma run_wf ops b b' :
  wf b -> Forall op_args_ok ops -> run ops b = Ok (tt, b') ->
  wf b' /\ size b' = size b /\
  count b' = foldl (spec_count_after (size b)) (count b) ops.
Proof.
  intros Hwf Hargs. revert b Hwf.
  induction Hargs as [|o ops Ho _ IH]; intros b Hwf Hrun; cbn in Hrun |- *.
  - by injection Hrun as <-.
  - unfold mbind, M_bind in Hrun.
    destruct (exec o b) as [[[] b1]|] eqn:Hexec; [|done].
    destruct (exec_wf o b b1 Hwf Ho Hexec) as (Hwf1 & Hs1 & Hc1).
    destruct (IH b1 Hwf1 Hrun) as (Hwf' & Hs' & Hc').
    split; [done|]. split; [congruence|]. by rewrite Hc', Hs1, Hc1.
Qed.

(** *** The logical contents *)

Lemma length_occupied b : length (occupied b) = Z.to_nat (count b).
Proof.
  unfold occupied, occupied_positions.
  by rewrite !length_fmap, length_seqZ.
Qed.

Lemma occupied_lookup b (i : nat) :
  wf b -> Z.of_nat i < count b ->
  occupied b !! i = buf b !! Z.to_nat ((begin b + Z.of_nat i) mod size b).
Proof.
  intros Hwf Hi.
  pose proof (count_range b Hwf) as Hcnt.
  unfold occupied, occupied_positions, position.
  rewrite !list_lookup_fmap, lookup_seqZ_lt by done. cbn.
  rewrite Z.add_0_l. symmetry. apply list_lookup_lookup_total_lt.
  destruct Hwf as [Hs Hb Hbg He Hw].
  pose proof (Z.mod_pos_bound (begin b + Z.of_nat i) (size b)). lia.
Qed.

Lemma occupied_lookup_ge b (i : nat) :
  count b <= Z.of_nat i -> occupied b !! i = None.
Proof.
  intros Hi. apply lookup_ge_None_2. rewrite length_occupied. lia.
Qed.

(** A full buffer has its indices equal; otherwise [end] is [count]
    slots after [begin]. *)
Lemma end_position b :
  wf b -> 0 < size b ->
  end_ b = (begin b + count b) mod size b /\
  (count b = size b -> wrap b = true).
Proof.
  intros Hwf Hpos.
  pose proof (count_explicit b Hwf) as Hcount.
  destruct Hwf as [Hs Hb Hbg He Hw]. destruct b as [bf sz bg e w]; cbn in *.
  rewrite Hcount. clear Hcount. destruct w.
  - destruct Hw as [<- _]; [done|]. split; [|done].
    rewrite (mod_once sz (bg + sz)) by lia.
    destruct (Z.ltb_spec (bg + sz) sz); lia.
  - destruct (Z.leb_spec bg e).
    + split; [|lia]. rewrite Z.mod_small; lia.
    + split; [|lia]. rewrite (mod_once sz (bg + (sz + e - bg))) by lia.
      destruct (Z.ltb_spec (bg + (sz + e - bg)) sz); lia.
Qed.

(** [push] appends to the contents, after dropping the oldest element
    when the buffer is full. *)
Lemma push_occupied b value b' :
  wf b -> push value b = Ok (tt, b') ->
  occupied b' =
    (if count b =? size b then drop 1 (occupied b) else occupied b) ++ [value].
Proof.
  intros Hwf Hrun.
  destruct (push_wf b value b' Hwf Hrun) as (Hpos & Hwf' & Hsz' & Hcnt').
  pose proof (count_range b Hwf) as Hcnt.
  destruct (end_position b Hwf Hpos) as [Hend Hfullw].
  rewrite (push_spec b value Hwf Hpos) in Hrun. cbn zeta in Hrun.
  injection Hrun as Hb'.
  assert (buf b' = <[Z.to_nat (end_ b) := value]> (buf b)) as Hbuf by by subst b'.
  assert (begin b' = if count b =? size b then (begin b + 1) mod size b
                     else begin b) as Hbg' by by subst b'.
  clear Hb'.
  pose proof Hwf as [Hs Hb Hbg He Hw].
  apply list_eq. intros i.
  destruct (Z.ltb_spec (Z.of_nat i) (count b')) as [Hi|Hi].
  2:{ rewrite occupied_lookup_ge by done. symmetry. apply lookup_ge_None_2.
      rewrite length_app. cbn.
      destruct (Z.eqb_spec (count b) (size b));
        rewrite ?length_drop, length_occupied; lia. }
  rewrite occupied_lookup, Hbuf, Hbg', Hsz' by done.
  destruct (Z.eqb_spec (count b) (size b)) as [Hfull|Hnot].
  - rewrite Z.add_mod_idemp_l by lia.
    destruct (Hw (Hfullw Hfull)) as [Hbe _].
    destruct (decide (Z.of_nat i = size b - 1)) as [Hlast|Hmid].
    + rewrite lookup_app_r by (rewrite length_drop, length_occupied; lia).
      rewrite length_drop, length_occupied.
      replace (i - (Z.to_nat (count b) - 1))%nat with 0%nat by lia. cbn.
      replace (begin b + 1 + Z.of_nat i) with (begin b + size b) by lia.
      rewrite (mod_once (size b) (begin b + size b)) by lia.
      destruct (Z.ltb_spec (begin b + size b) (size b)); [lia|].
      replace (begin b + size b - size b) with (end_ b) by lia.
      apply list_lookup_insert_eq. lia.
    + rewrite lookup_app_l by (rewrite length_drop, length_occupied; lia).
      rewrite lookup_drop, occupied_lookup by (done || lia).
      replace (begin b + Z.of_nat (1 + i)) with (begin b + 1 + Z.of_nat i) by lia.
      rewrite (mod_once (size b) (begin b + 1 + Z.of_nat i)) by lia.
      apply list_lookup_insert_ne.
      destruct (Z.ltb_spec (begin b + 1 + Z.of_nat i) (size b)); lia.
  - assert (Hpe : (begin b + count b) mod size b = end_ b) by done.
    rewrite (mod_once (size b) (begin b + count b)) in Hpe by lia.
    destruct (decide (Z.of_nat i = count b)) as [Hlast|Hmid].
    + rewrite lookup_app_r by (rewrite length_occupied; lia).
      rewrite length_occupied.
      replace (i - Z.to_nat (count b))%nat with 0%nat by lia. cbn.
      rewrite Hlast, <- Hend. apply list_lookup_insert_eq. lia.
    + rewrite lookup_app_l by (rewrite length_occupied; lia).
      rewrite occupied_lookup by (done || lia).
      rewrite (mod_once (size b) (begin b + Z.of_nat i)) by lia.
      apply list_lookup_insert_ne.
      destruct (Z.ltb_spec (begin b + count b) (size b)),
               (Z.ltb_spec (begin b + Z.of_nat i) (size b)); lia.
Qed.

(** Pushing a list of values one after the other keeps the newest
    [size] elements of the old contents followed by the new values. *)
Lemma push_all b (vs : list T) :
  wf b -> 0 < size b ->
  exists b',
    run (Push <$> vs) b = Ok (tt, b') /\ wf b' /\ size b' = size b /\
    occupied b' =
      drop (length (occupied b ++ vs) - Z.to_nat (size b)) (occupied b ++ vs).
Proof.
  intros Hwf Hpos. revert b Hwf Hpos.
  induction vs as [|v vs IH]; intros b Hwf Hpos.
  - exists b. split; [done|]. split; [done|]. split; [done|].
    pose proof (count_range b Hwf). rewrite app_nil_r.
    replace (length (occupied b) - Z.to_nat (size b))%nat with 0%nat; [done|].
    rewrite length_occupied. lia.
  - cbn [fmap list_fmap run]. unfold mbind, M_bind. cbn [exec].
    rewrite (push_spec b v Hwf Hpos). cbn zeta.
    set (b1 := mk _ _ _ _ _).
    assert (push v b = Ok (tt, b1)) as Hpush by apply (push_spec b v Hwf Hpos).
    destruct (push_wf b v b1 Hwf Hpush) as (_ & Hwf1 & Hsz1 & Hcnt1).
    pose proof (push_occupied b v b1 Hwf Hpush) as Hocc1.
    destruct (IH b1 Hwf1 ltac:(lia)) as (b' & Hrun & Hwf' & Hsz' & Hocc').
    exists b'. split; [done|]. split; [done|]. split; [congruence|].
    rewrite Hocc', Hocc1, Hsz1.
    pose proof (count_range b Hwf) as Hcnt.
    pose proof (length_occupied b) as Hlen.
    destruct (Z.eqb_spec (count b) (size b)) as [Hfull|Hnot].
    + destruct (occupied b) as [|x occ]; [cbn in Hlen; lia|].
      cbn [length] in Hlen. cbn [drop]. rewrite drop_0, <- !app_assoc.
      cbn [app length].
      pose proof (length_app occ (v :: vs)) as Hl. cbn [length] in Hl.
      replace (length (occ ++ v :: vs) - Z.to_nat (size b))%nat
        with (length vs) by lia.
      replace (S (length (occ ++ v :: vs)) - Z.to_nat (size b))%nat
        with (S (length vs)) by lia.
      done.
    + by rewrite <- app_assoc.
Qed.

(** Moving [begin] forward drops the oldest elements. *)
Lemma advance_begin_occupied b k :
  wf b -> 0 < k <= count b ->
  occupied (mk (buf b) (size b) ((begin b + k) mod size b) (end_ b) false) =
  drop (Z.to_nat k) (occupied b).
Proof.
  intros Hwf Hk.
  destruct (advance_begin_wf b k Hwf Hk) as [Hwf' Hcnt']. cbn zeta in *.
  pose proof (count_range b Hwf) as Hcnt.
  set (b' := mk _ _ _ _ _) in *.
  apply list_eq. intros i. rewrite lookup_drop.
  destruct (Z.ltb_spec (Z.of_nat i) (count b')) as [Hi|Hi].
  - rewrite !occupied_lookup by (done || lia). cbn.
    rewrite Z.add_mod_idemp_l by lia. do 3 f_equal. lia.
  - rewrite !occupied_lookup_ge by lia. done.
Qed.

(** Moving [end] forward keeps the old contents in front, whatever is
    stored in the slots that become occupied. *)
Lemma advance_end_occupied b (bf' : list T) k :
  wf b -> length bf' = length (buf b) -> 0 < k <= size b - count b ->
  (forall i : nat, Z.of_nat i < count b ->
     bf' !! Z.to_nat ((begin b + Z.of_nat i) mod size b) =
     buf b !! Z.to_nat ((begin b + Z.of_nat i) mod size b)) ->
  let e' := (end_ b + k) mod size b in
  let b' := mk bf' (size b) (begin b) e'
               (if begin b =? e' then true else wrap b) in
  take (Z.to_nat (count b)) (occupied b') = occupied b.
Proof.
  intros Hwf Hlen Hk Hsame e' b'.
  destruct (advance_end_wf b bf' k Hwf Hlen Hk) as [Hwf' Hcnt'].
  fold e' b' in Hwf', Hcnt'.
  pose proof (count_range b Hwf) as Hcnt.
  apply list_eq. intros i.
  destruct (Z.ltb_spec (Z.of_nat i) (count b)) as [Hi|Hi].
  - rewrite lookup_take_lt by lia.
    rewrite !occupied_lookup by (done || lia). by apply Hsame.
  - rewrite lookup_take_ge by lia. by rewrite occupied_lookup_ge.
Qed.

(** [write] appends the elements it accepts. *)
Lemma write_occupied b data n :
  wf b -> is_size_t n -> n <= Z.of_nat (length data) ->
  let k := Z.min n (getFree b) in
  exists b',
    write data n b = Ok (k, b') /\ wf b' /\
    occupied b' = occupied b ++ take (Z.to_nat k) data.
Proof.
  intros Hwf Hn Hlen k.
  pose proof (count_range b Hwf) as Hcnt.
  pose proof (getFree_explicit b Hwf) as Hfree.
  destruct (write_spec b data n Hwf Hn) as (bf' & Hw & Hl & Hlk); [lia|].
  fold k in Hw, Hlk. cbn zeta in Hw.
  destruct (Z.eqb_spec k 0) as [Hk0|Hk0].
  { exists b. split; [done|]. split; [done|].
    rewrite Hk0. cbn. by rewrite app_nil_r. }
  assert (0 < k <= size b - count b) as Hk by (unfold is_size_t in Hn; lia).
  destruct (advance_end_wf b bf' k Hwf Hl Hk) as [Hwf' Hcnt'].
  cbn zeta in Hwf', Hcnt'.
  eexists. split; [exact Hw|]. split; [exact Hwf'|].
  set (b' := mk _ _ _ _ _) in *.
  destruct (end_position b Hwf ltac:(lia)) as [Hend _].
  pose proof Hwf as [Hs Hb Hbg He Hwr].
  assert (forall i : nat, Z.of_nat i < count b' ->
            (Z.of_nat (Z.to_nat ((begin b + Z.of_nat i) mod size b)) - end_ b)
              mod size b = (Z.of_nat i - count b) mod size b) as Hoff.
  { intros i Hi.
    pose proof (Z.mod_pos_bound (begin b + Z.of_nat i) (size b) ltac:(lia)).
    rewrite Z2Nat.id by lia. rewrite Hend, <- Zminus_mod. f_equal. lia. }
  apply list_eq. intros i.
  destruct (Z.ltb_spec (Z.of_nat i) (count b')) as [Hi|Hi].
  2:{ rewrite occupied_lookup_ge by done. symmetry. apply lookup_ge_None_2.
      rewrite length_app, length_occupied, length_take. lia. }
  rewrite occupied_lookup by done. cbn [buf begin size b'].
  pose proof (Z.mod_pos_bound (begin b + Z.of_nat i) (size b) ltac:(lia)).
  rewrite Hlk by lia. rewrite Hoff by done.
  rewrite (mod_sub_once (size b) (Z.of_nat i - count b)) by lia.
  destruct (Z.ltb_spec (Z.of_nat i) (count b)) as [Hold|Hnew].
  - destruct (Z.ltb_spec (Z.of_nat i - count b) 0); [|lia].
    destruct (Z.ltb_spec (Z.of_nat i - count b + size b) k); [lia|].
    rewrite lookup_app_l by (rewrite length_occupied; lia).
    by rewrite occupied_lookup.
  - destruct (Z.ltb_spec (Z.of_nat i - count b) 0); [lia|].
    destruct (Z.ltb_spec (Z.of_nat i - count b) k); [|lia].
    rewrite lookup_app_r by (rewrite length_occupied; lia).
    rewrite length_occupied, lookup_take_lt by lia. f_equal. lia.
Qed.

(** [read] copies out the oldest elements and removes them. *)
Lemma read_occupied b dest n :
  wf b -> is_size_t n -> n <= Z.of_nat (length dest) ->
  let k := Z.min n (count b) in
  exists b',
    read dest n b =
      Ok ((k, take (Z.to_nat k) (occupied b) ++ drop (Z.to_nat k) dest), b') /\
    wf b' /\
    occupied b' = drop (Z.to_nat k) (occupied b).
Proof.
  intros Hwf Hn Hlen k.
  pose proof (count_range b Hwf) as Hcnt.
  destruct (read_spec b dest n Hwf Hn) as (dest' & Hr & Hl & Hlk); [lia|].
  fold k in Hr, Hlk. cbn zeta in Hr.
  assert (0 <= k <= count b) as Hk by (unfold is_size_t in Hn; lia).
  assert (dest' = take (Z.to_nat k) (occupied b) ++ drop (Z.to_nat k) dest) as <-.
  { apply list_eq. intros j. rewrite Hlk.
    destruct (Z.ltb_spec (Z.of_nat j) k) as [Hj|Hj].
    - rewrite lookup_app_l by (rewrite length_take, length_occupied; lia).
      rewrite lookup_take_lt by lia. rewrite occupied_lookup by (done || lia).
      done.
    - rewrite lookup_app_r by (rewrite length_take, length_occupied; lia).
      rewrite length_take, length_occupied, lookup_drop. f_equal. lia. }
  eexists. split; [exact Hr|].
  destruct (Z.eqb_spec k 0) as [Hk0|Hk0].
  - split; [done|]. by rewrite Hk0.
  - destruct (advance_begin_wf b k Hwf ltac:(lia)) as [Hwf' _].
    split; [exact Hwf'|]. apply advance_begin_occupied; [done|lia].
Qed.

(** [produce] keeps the old contents in front. *)
Lemma produce_occupied b n :
  wf b -> is_size_t n ->
  exists b',
    produce n b = Ok (Z.min n (getFree b), b') /\ wf b' /\
    take (Z.to_nat (count b)) (occupied b') = occupied b.
Proof.
  intros Hwf Hn.
  pose proof (count_range b Hwf) as Hcnt.
  pose proof (getFree_explicit b Hwf) as Hfree.
  pose proof (produce_spec b n Hwf Hn) as Hp. cbn zeta in Hp.
  eexists. split; [exact Hp|].
  destruct (Z.eqb_spec (Z.min n (getFree b)) 0) as [Hk0|Hk0].
  - split; [done|]. apply take_ge. rewrite length_occupied. lia.
  - assert (0 < Z.min n (getFree b) <= size b - count b) as Hk
      by (unfold is_size_t in Hn; lia).
    split; [by apply advance_end_wf|].
    by apply advance_end_occupied.
Qed.

Lemma run_reachable sz ops b :
  is_size_t sz -> Forall op_args_ok ops ->
  run ops (create sz) = Ok (tt, b) -> reachable b.
Proof.
  intros Hsz Hargs.
  assert (reachable (create (T:=T) sz)) as Hstart by by apply reach_create.
  revert Hstart. generalize (create (T:=T) sz). intros b0 Hr Hrun.
  revert b0 Hr Hrun.
  induction Hargs as [|o ops Ho _ IH]; intros b0 Hr Hrun; cbn in Hrun.
  - by injection Hrun as <-.
  - unfold mbind, M_bind in Hrun.
    destruct (exec o b0) as [[[] b1]|] eqn:Hexec; [|done].
    eapply IH; [|exact Hrun]. by eapply reach_step.
Qed.

(** *** The statistics loop *)

(** [walk_reads] lists the slots [walk] loads: when they all address
    the storage, [walk] folds its body over their contents. *)
Lemma walk_follows_reads {A} (body : T -> A -> A) trips curr_cnt iterator acc b ps :
  walk_reads trips curr_cnt iterator b = Ok (ps, b) ->
  Forall (fun p => 0 <= p < Z.of_nat (length (buf b))) ps ->
  walk body trips curr_cnt iterator acc b =
    Ok (foldl (fun a p => body (buf b !!! Z.to_nat p) a) acc ps, b).
Proof.
  revert iterator acc ps.
  induction trips as [|trips IH]; intros iterator acc ps Hreads Hin;
    cbn in Hreads |- *.
  - by injection Hreads as <-.
  - unfold mbind, M_bind, gets, umod in Hreads |- *. cbn in Hreads |- *.
    destruct (curr_cnt =? 0); [done|]. cbn in Hreads |- *.
    set (it := wrap_size (wrap_size (iterator + size b) - 1) mod curr_cnt) in *.
    destruct (walk_reads trips curr_cnt it b) as [[ps' b1]|] eqn:Hrest; [|done].
    injection Hreads as Hps Hb. subst ps b1.
    apply Forall_cons_1 in Hin as [Hit Hin].
    unfold load, index, mbind, M_bind, gets; cbn.
    destruct (Z.ltb_spec it 0); [lia|].
    destruct (lookup_lt_is_Some_2 (buf b) (Z.to_nat it)) as [x Hx]; [lia|].
    rewrite Hx. cbn. rewrite (list_lookup_total_correct _ _ _ Hx).
    by apply IH.
Qed.

(** ** The claims *)

(** C7. In every state that a fresh buffer reaches through Push, Write,
    Produce, Consume, Read and Reset calls, Count() + GetFree() equals the
    capacity, and Count() lies between 0 and the capacity. *)
Theorem count_free_capacity b :
  reachable b ->
  count b + getFree b = size b /\ 0 <= count b <= size b.
Proof.
  intros Hr. pose proof (reachable_wf b Hr) as Hwf.
  rewrite (getFree_explicit b Hwf).
  pose proof (count_range b Hwf). lia.
Qed.

(** C10. After any history of calls on a fresh buffer, a set [wrap] flag
    implies [begin = end]; Count() reports the capacity exactly when the
    buffer holds capacity elements according to the specification's
    account of the history, and it reports 0 when that account is 0. *)
Theorem wrap_flag_sound sz ops b :
  is_size_t sz -> Forall op_args_ok ops ->
  run ops (create sz) = Ok (tt, b) ->
  (wrap b = true -> begin b = end_ b) /\
  (count b = size b <-> spec_count sz ops = sz) /\
  (spec_count sz ops = 0 -> count b = 0).
Proof.
  intros Hsz Hargs Hrun.
  destruct (run_wf ops (create sz) b (create_wf sz Hsz) Hargs Hrun)
    as (Hwf & Hsize & Hcount).
  cbn in Hsize, Hcount. fold (spec_count sz ops) in Hcount.
  split; [|split].
  - intros Hw. by destruct (wf_wrap b Hwf Hw).
  - by rewrite Hcount, Hsize.
  - by rewrite Hcount.
Qed.

(** C9, as the code has it. On every well-formed buffer of positive
    capacity GetMostRecent() returns the element stored at index [end],
    the next free write slot, and leaves the object as it was. *)
Theorem get_most_recent_reads_end b :
  wf b -> 0 < size b ->
  exists v,
    buf b !! Z.to_nat (end_ b) = Some v /\ get_most_recent b = Ok (v, b).
Proof.
  intros [_ Hb _ He _] Hpos.
  destruct (lookup_lt_is_Some_2 (buf b) (Z.to_nat (end_ b))) as [v Hv]; [lia|].
  exists v. split; [done|].
  unfold get_most_recent, load, index, mbind, M_bind, gets. cbn.
  destruct (Z.ltb_spec (end_ b) 0); [lia|]. by rewrite Hv.
Qed.

(** C8, as the code has it. On every well-formed buffer and for every
    [n], Produce(n) returns [k = min(n, getFree())], moves [end] forward
    by [k] slots modulo the capacity, and sets [wrap] when it moved at
    least one slot and [begin = end] afterwards; Consume(n) returns
    [k = min(n, count())], moves [begin] forward by [k] slots modulo the
    capacity and clears [wrap] when [k] is positive; neither touches the
    storage, the capacity or the other index. *)
Theorem produce_consume_bookkeeping b n :
  wf b -> is_size_t n ->
  (exists b',
     let k := Z.min n (getFree b) in
     produce n b = Ok (k, b') /\
     buf b' = buf b /\ size b' = size b /\ begin b' = begin b /\
     end_ b' = (if size b =? 0 then end_ b else (end_ b + k) mod size b) /\
     wrap b' = (wrap b || ((0 <? k) && (begin b' =? end_ b')))) /\
  (exists b',
     let k := Z.min n (count b) in
     consume n b = Ok (k, b') /\
     buf b' = buf b /\ size b' = size b /\ end_ b' = end_ b /\
     begin b' = (if size b =? 0 then begin b else (begin b + k) mod size b) /\
     wrap b' = (if 0 <? k then false else wrap b)).
Proof.
  intros Hwf Hn.
  pose proof (count_range b Hwf) as Hcnt.
  pose proof (getFree_explicit b Hwf) as Hfree.
  pose proof Hwf as [Hs Hb Hbg He Hw].
  split.
  - eexists. cbn zeta. split; [apply (produce_spec b n Hwf Hn)|].
    cbn zeta. destruct (Z.eqb_spec (Z.min n (getFree b)) 0) as [Hk0|Hk0].
    + rewrite Hk0, Z.add_0_r. cbn. rewrite orb_false_r.
      repeat split. destruct (Z.eqb_spec (size b) 0); [done|].
      rewrite Z.mod_small; lia.
    + assert (0 < Z.min n (getFree b)) as Hk by (unfold is_size_t in Hn; lia).
      cbn. destruct (Z.eqb_spec (size b) 0); [lia|]. repeat split.
      destruct (Z.ltb_spec 0 (Z.min n (getFree b))); [|lia].
      destruct (begin b =? _), (wrap b); done.
  - eexists. cbn zeta. split; [apply (consume_spec b n Hwf Hn)|].
    cbn zeta. destruct (Z.eqb_spec (Z.min n (count b)) 0) as [Hk0|Hk0].
    + rewrite Hk0, Z.add_0_r. cbn. repeat split.
      destruct (Z.eqb_spec (size b) 0); [done|].
      rewrite Z.mod_small; lia.
    + assert (0 < Z.min n (count b)) as Hk by (unfold is_size_t in Hn; lia).
      cbn. destruct (Z.eqb_spec (size b) 0); [lia|]. repeat split.
      by destruct (Z.ltb_spec 0 (Z.min n (count b))); [|lia].
Qed.

(** C6. On an empty well-formed buffer of capacity at least [n],
    Write(data, n) with [n] source elements followed by Read(dest, n)
    returns [n] from both calls and leaves the source elements in the
    first [n] places of the destination. *)
Theorem write_read_roundtrip b (data dest : list T) n :
  wf b -> count b = 0 -> n <= size b ->
  Z.of_nat (length data) = n -> n <= Z.of_nat (length dest) ->
  exists b1 b2,
    write data n b = Ok (n, b1) /\
    read dest n b1 = Ok ((n, data ++ drop (Z.to_nat n) dest), b2).
Proof.
  intros Hwf Hempty Hcap Hdata Hdest.
  pose proof (getFree_explicit b Hwf) as Hfree.
  assert (is_size_t n) as Hn.
  { destruct Hwf as [Hs _ _ _ _]. unfold is_size_t in *. lia. }
  destruct (write_occupied b data n Hwf Hn ltac:(lia)) as (b1 & Hw & Hwf1 & Hocc1).
  replace (Z.min n (getFree b)) with n in Hw, Hocc1 by lia.
  assert (occupied b = []) as Hnil.
  { apply length_zero_iff_nil. rewrite length_occupied. lia. }
  rewrite Hnil, take_ge in Hocc1 by lia. cbn in Hocc1.
  destruct (read_occupied b1 dest n Hwf1 Hn Hdest) as (b2 & Hr & _ & _).
  assert (count b1 = n) as Hc1.
  { pose proof (length_occupied b1) as Hl. rewrite Hocc1 in Hl.
    pose proof (count_range b1 Hwf1). lia. }
  rewrite Hc1, Z.min_id, Hocc1, take_ge in Hr by lia.
  by exists b1, b2.
Qed.

(** C5. On a well-formed buffer of positive capacity: pushing
    capacity + k values leaves exactly the last capacity of them, oldest
    first; a push on a full buffer is Consume(1), which drops the oldest
    element, followed by the push itself; a push on a buffer that is not
    full, a Write and a Produce drop nothing: the old contents stay in
    front. *)
Theorem push_evicts_oldest b :
  wf b -> 0 < size b ->
  (forall (vs : list T) (k : nat),
     length vs = (Z.to_nat (size b) + k)%nat ->
     exists b', run (Push <$> vs) b = Ok (tt, b') /\ occupied b' = drop k vs) /\
  (forall value, count b = size b ->
     exists b1 b',
       consume 1 b = Ok (1, b1) /\ occupied b1 = drop 1 (occupied b) /\
       push value b = push value b1 /\
       push value b = Ok (tt, b') /\
       occupied b' = drop 1 (occupied b) ++ [value]) /\
  (forall value, count b < size b ->
     exists b', push value b = Ok (tt, b') /\
                occupied b' = occupied b ++ [value]) /\
  (forall data n, is_size_t n -> n <= Z.of_nat (length data) ->
     exists k b', write data n b = Ok (k, b') /\
                  occupied b `prefix_of` occupied b') /\
  (forall n, is_size_t n ->
     exists k b', produce n b = Ok (k, b') /\
                  occupied b `prefix_of` occupied b').
Proof.
  intros Hwf Hpos.
  pose proof (count_range b Hwf) as Hcnt.
  split; [|split; [|split; [|split]]].
  - intros vs k Hlen.
    destruct (push_all b vs Hwf Hpos) as (b' & Hrun & _ & _ & Hocc).
    exists b'. split; [done|]. rewrite Hocc.
    rewrite drop_app_ge by (rewrite length_app, length_occupied; lia).
    f_equal. rewrite length_app, length_occupied. lia.
  - intros value Hfull.
    pose proof (consume_spec b 1 Hwf ltac:(unfold is_size_t, SIZE_BITS; lia)) as Hc.
    cbn zeta in Hc. replace (Z.min 1 (count b)) with 1 in Hc by lia. cbn in Hc.
    destruct (advance_begin_wf b 1 Hwf ltac:(lia)) as [Hwf1 Hc1].
    pose proof (advance_begin_occupied b 1 Hwf ltac:(lia)) as Hocc1.
    cbn zeta in Hwf1, Hc1. set (b1 := mk _ _ _ _ _) in *.
    pose proof (push_spec b value Hwf Hpos) as Hp.
    eexists b1, _. split; [done|]. split; [done|].
    split; [|split; [exact Hp|]].
    + unfold push at 1 2, mbind, M_bind, gets.
      rewrite Hc1. destruct (Z.eqb_spec (count b) (size b)); [|done].
      rewrite Hc. cbn [size b1].
      destruct (Z.eqb_spec (count b - 1) (size b)); [lia|]. done.
    + rewrite (push_occupied b value _ Hwf Hp).
      by destruct (Z.eqb_spec (count b) (size b)).
  - intros value Hfree.
    pose proof (push_spec b value Hwf Hpos) as Hp.
    eexists. split; [exact Hp|].
    rewrite (push_occupied b value _ Hwf Hp).
    destruct (Z.eqb_spec (count b) (size b)); [lia|done].
  - intros data n Hn Hlen.
    destruct (write_occupied b data n Hwf Hn Hlen) as (b' & Hw & _ & Hocc).
    exists (Z.min n (getFree b)), b'. split; [done|].
    rewrite Hocc. by apply prefix_app_r.
  - intros n Hn.
    destruct (produce_occupied b n Hwf Hn) as (b' & Hp & _ & Hocc).
    exists (Z.min n (getFree b)), b'. split; [done|].
    rewrite <- Hocc. apply prefix_take.
Qed.

(** ** Further properties of the methods *)

(** *** The loops leave the object alone *)

Lemma walk_state {A} (body : T -> A -> A) trips curr_cnt iterator acc b r b' :
  walk body trips curr_cnt iterator acc b = Ok (r, b') -> b' = b.
Proof.
  revert iterator acc.
  induction trips as [|trips IH]; intros iterator acc Hrun; cbn in Hrun.
  - by injection Hrun as _ <-.
  - unfold mbind, M_bind, gets, umod, load, index in Hrun. cbn in Hrun.
    destruct (curr_cnt =? 0); [done|].
    unfold mbind, M_bind, gets, mret, M_ret in Hrun. cbn in Hrun.
    destruct (_ <? 0); [done|].
    destruct (buf b !! _); [|done]. by eapply IH.
Qed.

Lemma variance_loop_state trips curr_cnt cached_mean i iterator acc b r b' :
  variance_loop trips curr_cnt cached_mean i iterator acc b = Ok (r, b') ->
  b' = b.
Proof.
  revert i iterator acc.
  induction trips as [|trips IH]; intros i iterator acc Hrun; cbn in Hrun.
  - by injection Hrun as _ <-.
  - unfold mbind, M_bind, gets, umod, load, index in Hrun. cbn in Hrun.
    destruct (curr_cnt =? 0); [done|].
    unfold mbind, M_bind, gets, mret, M_ret in Hrun. cbn in Hrun.
    destruct (i <? 0); [done|].
    destruct (buf b !! _); [|done]. by eapply IH.
Qed.

Lemma dump_loop_run trips iterator b :
  (trips = 0%nat \/ size b <> 0) -> dump_loop trips iterator b = Ok (tt, b).
Proof.
  revert iterator. induction trips as [|trips IH]; intros iterator Hsz; [done|].
  destruct Hsz as [|Hsz]; [done|]. cbn.
  unfold mbind, M_bind, gets, umod. cbn.
  destruct (Z.eqb_spec (size b) 0); [done|]. cbn. apply IH. by right.
Qed.

Lemma mean_state b r b' : mean b = Ok (r, b') -> b' = b.
Proof.
  unfold mean, mbind, M_bind, gets. cbn. intros Hrun.
  destruct (walk _ _ _ _ _ b) as [[s b1]|] eqn:Hwalk; [|done].
  apply walk_state in Hwalk. by injection Hrun as _ <-.
Qed.

(** X10. The queries never modify the object: when mean(), mean(n),
    variance(), stddev(), zeroCount(), countValue(value) or
    get_most_recent() returns, every field is as before the call; dump()
    always returns, and changes nothing either. *)
Theorem queries_leave_object b :
  (forall r b', mean b = Ok (r, b') -> b' = b) /\
  (forall n r b', mean_n n b = Ok (r, b') -> b' = b) /\
  (forall r b', variance b = Ok (r, b') -> b' = b) /\
  (forall r b', stddev b = Ok (r, b') -> b' = b) /\
  (forall r b', zeroCount b = Ok (r, b') -> b' = b) /\
  (forall value r b', countValue value b = Ok (r, b') -> b' = b) /\
  (forall r b', get_most_recent b = Ok (r, b') -> b' = b) /\
  dump b = Ok (tt, b).
Proof.
  assert (forall r b', variance b = Ok (r, b') -> b' = b) as Hvar.
  { intros r b'. unfold variance, mbind, M_bind, gets. cbn. intros Hrun.
    destruct (mean b) as [[m b1]|] eqn:Hmean; [|done].
    apply mean_state in Hmean. subst b1.
    destruct (size b =? 0); [by injection Hrun as _ <-|].
    destruct (variance_loop _ _ _ _ _ _ b) as [[s b1]|] eqn:Hloop; [|done].
    apply variance_loop_state in Hloop. by injection Hrun as _ <-. }
  repeat split.
  - apply mean_state.
  - intros n r b'. unfold mean_n, mbind, M_bind, gets. cbn. intros Hrun.
    destruct (walk _ _ _ _ _ b) as [[s b1]|] eqn:Hwalk; [|done].
    apply walk_state in Hwalk. by injection Hrun as _ <-.
  - exact Hvar.
  - intros r b'. unfold stddev, mbind, M_bind. intros Hrun.
    destruct (variance b) as [[v b1]|] eqn:Hv; [|done].
    specialize (Hvar v b1 eq_refl). by injection Hrun as _ <-.
  - intros r b'. unfold zeroCount, mbind, M_bind, gets. cbn. apply walk_state.
  - intros value r b'. unfold countValue, mbind, M_bind, gets. cbn.
    apply walk_state.
  - intros r b'. unfold get_most_recent, load, index, mbind, M_bind, gets. cbn.
    destruct (_ <? 0); [done|]. destruct (buf b !! _); [|done].
    intros Hrun. by injection Hrun as _ <-.
  - unfold dump, mbind, M_bind, gets. cbn. apply dump_loop_run.
    destruct (Z.eq_dec (size b) 0) as [->|]; [by left|by right].
Qed.

(** *** Invariant and absence of faults *)

(** X1. Whatever well-formed calls a fresh buffer of capacity [sz] goes
    through, the capacity and the length of the storage stay [sz], and
    both indices stay below the capacity (at 0, with [wrap] clear, when
    the capacity is 0). *)
Theorem history_keeps_layout sz ops b :
  is_size_t sz -> Forall op_args_ok ops ->
  run ops (create sz) = Ok (tt, b) ->
  size b = sz /\ Z.of_nat (length (buf b)) = sz /\
  (0 < sz -> 0 <= begin b < sz /\ 0 <= end_ b < sz) /\
  (sz = 0 -> begin b = 0 /\ end_ b = 0 /\ wrap b = false).
Proof.
  intros Hsz Hargs Hrun.
  destruct (run_wf ops (create sz) b (create_wf sz Hsz) Hargs Hrun)
    as ([Hs Hb Hbg He Hw] & Hsize & _).
  cbn in Hsize. rewrite Hsize in *.
  split; [done|]. split; [done|]. split; [lia|].
  intros ->. split; [lia|]. split; [lia|].
  destruct (wrap b); [destruct Hw; [done|lia]|done].
Qed.

Lemma exec_returns o b :
  wf b -> 0 < size b -> op_args_ok o -> exists b', exec o b = Ok (tt, b').
Proof.
  intros Hwf Hpos Hargs.
  pose proof (count_range b Hwf) as Hcnt.
  pose proof (getFree_explicit b Hwf) as Hfree.
  destruct o as [value|data n|n|n|dest n|]; cbn in Hargs |- *;
    unfold mbind, M_bind.
  - eexists. apply (push_spec b value Hwf Hpos).
  - destruct Hargs as [Hn Hlen].
    destruct (write_spec b data n Hwf Hn) as (bf' & -> & _); [lia|]. eauto.
  - rewrite (produce_spec b n Hwf Hargs). eauto.
  - rewrite (consume_spec b n Hwf Hargs). eauto.
  - destruct Hargs as [Hn Hlen].
    destruct (read_spec b dest n Hwf Hn) as (dest' & -> & _); [lia|]. eauto.
  - unfold reset, mbind, M_bind, gets.
    rewrite (consume_spec b (count b) Hwf).
    + eauto.
    + destruct Hwf as [Hs _ _ _ _]. unfold is_size_t in *. lia.
Qed.

(** X2. On a well-formed buffer of positive capacity no history of
    well-formed calls faults: every call returns, and the buffer it
    leaves is well-formed again. *)
Theorem history_returns ops b :
  wf b -> 0 < size b -> Forall op_args_ok ops ->
  exists b', run ops b = Ok (tt, b') /\ wf b' /\ size b' = size b.
Proof.
  intros Hwf Hpos Hargs. revert b Hwf Hpos.
  induction Hargs as [|o ops Ho _ IH]; intros b Hwf Hpos.
  - by exists b.
  - destruct (exec_returns o b Hwf Hpos Ho) as [b1 Hexec].
    destruct (exec_wf o b b1 Hwf Ho Hexec) as (Hwf1 & Hs1 & _).
    destruct (IH b1 Hwf1 ltac:(lia)) as (b' & Hrun & Hwf' & Hs').
    exists b'. cbn. unfold mbind, M_bind. rewrite Hexec.
    split; [done|]. split; [done|congruence].
Qed.

(** *** Calls that have nothing to do *)

Lemma write_nothing b data n :
  wf b -> is_size_t n -> Z.min n (getFree b) = 0 -> write data n b = Ok (0, b).
Proof.
  intros Hwf Hn Hk.
  destruct (write_spec b data n Hwf Hn) as (bf' & Hw & _); [lia|].
  by rewrite Hk in Hw.
Qed.

Lemma read_nothing b dest n :
  wf b -> is_size_t n -> Z.min n (count b) = 0 ->
  read dest n b = Ok ((0, dest), b).
Proof.
  intros Hwf Hn Hk.
  destruct (read_spec b dest n Hwf Hn) as (dest' & Hr & _ & Hlk); [lia|].
  rewrite Hk in Hr, Hlk. cbn in Hr. rewrite Hr.
  assert (dest' = dest) as ->; [|done].
  apply list_eq. intros j. rewrite Hlk.
  by destruct (Z.ltb_spec (Z.of_nat j) 0); [lia|].
Qed.

(** X9. A call that cannot move anything returns 0 and changes nothing:
    write and produce on a full buffer, read and consume on an empty one
    (whose destination array is left as it was), and any of them with
    [n = 0]. *)
Theorem clamped_calls_are_no_ops b n :
  wf b -> is_size_t n ->
  (n = 0 \/ count b = size b ->
     produce n b = Ok (0, b) /\ forall data, write data n b = Ok (0, b)) /\
  (n = 0 \/ count b = 0 ->
     consume n b = Ok (0, b) /\
     forall dest, read dest n b = Ok ((0, dest), b)).
Proof.
  intros Hwf Hn.
  pose proof (count_range b Hwf) as Hcnt.
  pose proof (getFree_explicit b Hwf) as Hfree.
  assert (0 <= n) as Hn0 by (unfold is_size_t in Hn; lia).
  split; intros Hcase.
  - assert (Z.min n (getFree b) = 0) as Hk by lia.
    split; [|intros data; by apply write_nothing].
    pose proof (produce_spec b n Hwf Hn) as Hp. by rewrite Hk in Hp.
  - assert (Z.min n (count b) = 0) as Hk by lia.
    split; [|intros dest; by apply read_nothing].
    pose proof (consume_spec b n Hwf Hn) as Hc. by rewrite Hk in Hc.
Qed.

(** X3. A buffer of capacity 0 stays as it is: produce, consume, write
    and read return 0 for every [n], reset returns, count() and getFree()
    are 0, and nothing changes; push is the one call that faults, on its
    store outside the empty storage. *)
Theorem zero_capacity_is_inert b n :
  wf b -> size b = 0 -> is_size_t n ->
  count b = 0 /\ getFree b = 0 /\
  produce n b = Ok (0, b) /\ consume n b = Ok (0, b) /\
  (forall data, write data n b = Ok (0, b)) /\
  (forall dest, read dest n b = Ok ((0, dest), b)) /\
  reset b = Ok (tt, b) /\
  (forall value, push value b = Fault OutOfBounds).
Proof.
  intros Hwf Hz Hn.
  pose proof (count_range b Hwf) as Hcnt.
  pose proof (getFree_explicit b Hwf) as Hfree.
  assert (count b = 0) as Hc by lia.
  assert (0 <= n) as Hn0 by (unfold is_size_t in Hn; lia).
  assert (Z.min n (getFree b) = 0) as Hkf by lia.
  assert (Z.min n (count b) = 0) as Hkc by lia.
  pose proof (produce_spec b n Hwf Hn) as Hp. rewrite Hkf in Hp.
  pose proof (consume_spec b n Hwf Hn) as Hcs. rewrite Hkc in Hcs.
  split; [done|]. split; [lia|]. split; [done|]. split; [done|].
  split; [intros data; by apply write_nothing|].
  split; [intros dest; by apply read_nothing|]. split.
  - unfold reset, mbind, M_bind, gets. rewrite Hc.
    pose proof (consume_spec b 0 Hwf ltac:(unfold is_size_t, SIZE_BITS; lia)) as H0.
    rewrite Hc in H0. cbn in H0. by rewrite H0.
  - intros value. by apply push_zero_capacity.
Qed.

(** *** First in, first out *)

(** X4. Pushing any list of values into a well-formed buffer of positive
    capacity leaves the newest [size] elements of the old contents
    followed by the pushed values, oldest first; the count grows by the
    number of values until it reaches the capacity. *)
Theorem push_sliding_window b (vs : list T) :
  wf b -> 0 < size b ->
  exists b',
    run (Push <$> vs) b = Ok (tt, b') /\
    occupied b' =
      drop (length (occupied b ++ vs) - Z.to_nat (size b)) (occupied b ++ vs) /\
    count b' = Z.min (size b) (count b + Z.of_nat (length vs)).
Proof.
  intros Hwf Hpos.
  pose proof (count_range b Hwf) as Hcnt.
  destruct (push_all b vs Hwf Hpos) as (b' & Hrun & Hwf' & Hsz' & Hocc).
  exists b'. split; [done|]. split; [done|].
  pose proof (count_range b' Hwf') as Hcnt'.
  pose proof (length_occupied b') as Hlen.
  rewrite Hocc, length_drop, length_app, length_occupied in Hlen. lia.
Qed.

(** X5. Write(data, n) appends the first [min(n, getFree())] elements
    of [data] to the contents, in order, returns that number, and drops
    the rest of the input; nothing already held is lost. *)
Theorem write_appends b data n :
  wf b -> is_size_t n -> n <= Z.of_nat (length data) ->
  exists b',
    write data n b = Ok (Z.min n (getFree b), b') /\
    occupied b' = occupied b ++ take (Z.to_nat (Z.min n (getFree b))) data /\
    count b' = count b + Z.min n (getFree b).
Proof.
  intros Hwf Hn Hlen.
  pose proof (count_range b Hwf) as Hcnt.
  pose proof (getFree_explicit b Hwf) as Hfree.
  destruct (write_occupied b data n Hwf Hn Hlen) as (b' & Hw & Hwf' & Hocc).
  exists b'. split; [done|]. split; [done|].
  pose proof (count_range b' Hwf') as Hcnt'.
  pose proof (length_occupied b') as Hl.
  rewrite Hocc, length_app, length_take, length_occupied in Hl.
  unfold is_size_t in Hn. lia.
Qed.

(** X6. Read(dest, n) copies the oldest [min(n, count())] elements, in
    order, to the front of [dest], leaves the rest of [dest] and the whole
    storage as they were, and removes exactly those elements from the
    contents. *)
Theorem read_takes_oldest b dest n :
  wf b -> is_size_t n -> n <= Z.of_nat (length dest) ->
  exists b',
    let k := Z.to_nat (Z.min n (count b)) in
    read dest n b = Ok ((Z.min n (count b), take k (occupied b) ++ drop k dest), b') /\
    occupied b' = drop k (occupied b) /\
    buf b' = buf b /\ end_ b' = end_ b.
Proof.
  intros Hwf Hn Hlen.
  pose proof (count_range b Hwf) as Hcnt.
  destruct (read_occupied b dest n Hwf Hn Hlen) as (b' & Hr & _ & Hocc).
  destruct (read_spec b dest n Hwf Hn) as (dest' & Hr' & _); [lia|].
  exists b'. cbn zeta. split; [done|]. split; [done|].
  rewrite Hr in Hr'. injection Hr' as _ ->.
  by destruct (Z.min n (count b) =? 0).
Qed.

(** X7. Consume(n) removes the oldest [min(n, count())] elements from
    the contents and keeps the others in order. *)
Theorem consume_drops_oldest b n :
  wf b -> is_size_t n ->
  exists b',
    consume n b = Ok (Z.min n (count b), b') /\
    occupied b' = drop (Z.to_nat (Z.min n (count b))) (occupied b) /\
    count b' = count b - Z.min n (count b).
Proof.
  intros Hwf Hn.
  pose proof (count_range b Hwf) as Hcnt.
  pose proof (consume_spec b n Hwf Hn) as Hc. cbn zeta in Hc.
  eexists. split; [exact Hc|].
  destruct (Z.eqb_spec (Z.min n (count b)) 0) as [Hk|Hk].
  - rewrite Hk. split; [done|lia].
  - assert (0 < Z.min n (count b) <= count b) as Hk'
      by (unfold is_size_t in Hn; lia).
    destruct (advance_begin_wf b _ Hwf Hk') as [_ Hc'].
    split; [by apply advance_begin_occupied|done].
Qed.

(** X8. Reset() empties the buffer without touching the storage or
    [end]: afterwards count() is 0 and getFree() is the capacity; on a
    buffer of positive capacity a push that follows returns and leaves
    exactly the pushed value. *)
Theorem reset_empties b :
  wf b ->
  exists b',
    reset b = Ok (tt, b') /\
    count b' = 0 /\ getFree b' = size b /\ occupied b' = [] /\
    buf b' = buf b /\ end_ b' = end_ b /\
    (0 < size b ->
     forall value, exists b'',
       push value b' = Ok (tt, b'') /\ count b'' = 1 /\ occupied b'' = [value]).
Proof.
  intros Hwf.
  pose proof (count_range b Hwf) as Hcnt.
  assert (is_size_t (count b)) as Hc.
  { destruct Hwf as [Hs _ _ _ _]. unfold is_size_t in *. lia. }
  pose proof (consume_spec b (count b) Hwf Hc) as Hcons.
  cbn zeta in Hcons. rewrite Z.min_id in Hcons.
  assert (exists b', reset b = Ok (tt, b') /\ wf b' /\ count b' = 0 /\
            size b' = size b /\ buf b' = buf b /\ end_ b' = end_ b)
    as (b' & Hreset & Hwf' & Hc' & Hs' & Hb' & He').
  { unfold reset, mbind, M_bind, gets. rewrite Hcons.
    eexists. split; [reflexivity|].
    destruct (Z.eqb_spec (count b) 0) as [Hz|Hnz]; [done|].
    destruct (advance_begin_wf b (count b) Hwf ltac:(lia)) as [Hwf' Hc'].
    split; [done|]. split; [lia|done]. }
  assert (occupied b' = []) as Hnil.
  { apply length_zero_iff_nil. rewrite length_occupied. lia. }
  exists b'. split; [done|]. split; [done|].
  split; [rewrite (getFree_explicit b' Hwf'); lia|].
  split; [done|]. split; [done|]. split; [done|].
  intros Hpos value.
  pose proof (push_spec b' value Hwf' ltac:(lia)) as Hp.
  destruct (push_wf b' value _ Hwf' Hp) as (_ & _ & _ & Hc'').
  eexists. split; [exact Hp|]. split.
  - rewrite Hc''. destruct (Z.eqb_spec (count b') (size b')); lia.
  - rewrite (push_occupied b' value _ Hwf' Hp), Hnil.
    by destruct (Z.eqb_spec (count b') (size b')); [lia|].
Qed.

(** X11. Writing and then reading everything returns the elements in
    arrival order: the old contents first, then the accepted part of
    [data]; the buffer is empty afterwards. *)
Theorem write_then_read_all b data dest n :
  wf b -> is_size_t n -> n <= Z.of_nat (length data) ->
  let k := Z.min n (getFree b) in
  let m := count b + k in
  m <= Z.of_nat (length dest) ->
  exists b1 b2,
    write data n b = Ok (k, b1) /\
    read dest m b1 =
      Ok ((m, occupied b ++ take (Z.to_nat k) data ++ drop (Z.to_nat m) dest),
          b2) /\
    count b2 = 0.
Proof.
  intros Hwf Hn Hlen k m Hdest.
  pose proof (count_range b Hwf) as Hcnt.
  pose proof (getFree_explicit b Hwf) as Hfree.
  destruct (write_occupied b data n Hwf Hn Hlen) as (b1 & Hw & Hwf1 & Hocc1).
  fold k in Hw, Hocc1.
  assert (0 <= k <= size b - count b) as Hk
    by (unfold is_size_t in Hn; subst k; lia).
  pose proof (count_range b1 Hwf1) as Hcnt1.
  assert (count b1 = m) as Hc1.
  { pose proof (length_occupied b1) as Hl.
    rewrite Hocc1, length_app, length_take, length_occupied in Hl.
    subst m. lia. }
  assert (is_size_t m) as Hm.
  { destruct Hwf1 as [Hs _ _ _ _]. unfold is_size_t in *. lia. }
  destruct (read_occupied b1 dest m Hwf1 Hm Hdest) as (b2 & Hr & Hwf2 & Hocc2).
  rewrite Hc1, Z.min_id in Hr, Hocc2.
  rewrite take_ge in Hr by (rewrite length_occupied; lia).
  rewrite Hocc1, <- app_assoc in Hr.
  exists b1, b2. split; [done|]. split; [done|].
  pose proof (length_occupied b2) as Hl2.
  rewrite Hocc2, length_drop, length_occupied in Hl2.
  pose proof (count_range b2 Hwf2). lia.
Qed.

(** X12. After push(value) on a well-formed buffer, get_most_recent()
    returns the pushed value only when the capacity is 1; for a larger
    capacity it returns what the storage held, before the push, in the
    slot after the one written. *)
Theorem push_then_most_recent b value :
  wf b -> 0 < size b ->
  exists b',
    push value b = Ok (tt, b') /\
    get_most_recent b' =
      Ok (if size b =? 1 then value
          else buf b !!! Z.to_nat ((end_ b + 1) mod size b), b').
Proof.
  intros Hwf Hpos.
  pose proof (push_spec b value Hwf Hpos) as Hp. cbn zeta in Hp.
  eexists. split; [exact Hp|].
  destruct Hwf as [Hs Hb Hbg He Hw].
  unfold get_most_recent, load, index, mbind, M_bind, gets. cbn.
  pose proof (Z.mod_pos_bound (end_ b + 1) (size b) Hpos) as Hrange.
  destruct (Z.ltb_spec ((end_ b + 1) mod size b) 0); [lia|].
  destruct (Z.eqb_spec (size b) 1) as [H1|H1].
  - assert (end_ b = 0) as He0 by lia. rewrite H1, He0. cbn.
    rewrite list_lookup_insert_eq by lia. done.
  - rewrite (mod_once (size b) (end_ b + 1)) in * by lia.
    rewrite list_lookup_insert_ne
      by (destruct (Z.ltb_spec (end_ b + 1) (size b)); lia).
    destruct (lookup_lt_is_Some_2 (buf b)
                (Z.to_nat (if end_ b + 1 <? size b then end_ b + 1
                           else end_ b + 1 - size b))) as [x Hx]; [lia|].
    rewrite Hx. cbn. by rewrite (list_lookup_total_correct _ _ _ Hx).
Qed.

(** *** The statistics on a full and on an empty buffer *)

(** With the occupied count equal to the capacity, the statistics loop
    steps backwards through the storage, one slot at a time. *)
Lemma walk_reads_full trips it b :
  0 < size b -> 2 * size b <= 2 ^ SIZE_BITS -> 0 <= it < size b ->
  walk_reads trips (size b) it b =
    Ok ((fun k => (it - k) mod size b) <$> seqZ 1 (Z.of_nat trips), b).
Proof.
  intros Hpos Hmax. revert it.
  induction trips as [|trips IH]; intros it Hit; [done|].
  cbn [walk_reads]. unfold mbind, M_bind, gets, umod. cbn.
  destruct (Z.eqb_spec (size b) 0); [lia|]. cbn.
  assert (wrap_size (wrap_size (it + size b) - 1) mod size b
          = (it - 1) mod size b) as ->.
  { rewrite (wrap_size_small (it + size b)) by (unfold is_size_t; lia).
    rewrite wrap_size_small by (unfold is_size_t; lia).
    replace (it + size b - 1) with (it - 1 + 1 * size b) by lia.
    apply Z_mod_plus_full. }
  pose proof (Z.mod_pos_bound (it - 1) (size b) Hpos) as Hit1.
  rewrite IH by done.
  rewrite (seqZ_cons 1 (Z.of_nat (S trips))) by lia.
  replace (Z.pred (Z.of_nat (S trips))) with (Z.of_nat trips) by lia.
  replace (Z.succ 1) with (1 + 1) by lia.
  rewrite <- fmap_add_seqZ, fmap_cons, <- list_fmap_compose.
  unfold mret, M_ret. do 3 f_equal.
  apply list_fmap_ext. intros _ k _. cbn.
  rewrite Zminus_mod_idemp_l. f_equal. lia.
Qed.

Lemma stat_reads_full b :
  wf b -> count b = size b -> 2 * size b <= 2 ^ SIZE_BITS ->
  stat_reads b = Ok (reverse (occupied_positions b), b).
Proof.
  intros Hwf Hfull Hmax.
  pose proof Hwf as [Hs Hb Hbg He Hw].
  unfold stat_reads, mbind, M_bind, gets. cbn. rewrite Hfull.
  destruct (Z.eq_dec (size b) 0) as [Hz|Hnz].
  { unfold occupied_positions. rewrite Hfull, Hz. done. }
  assert (0 < size b) as Hpos by (unfold is_size_t in Hs; lia).
  rewrite walk_reads_full by lia. do 2 f_equal.
  rewrite Z2Nat.id by lia.
  unfold occupied_positions, position. rewrite Hfull.
  apply list_eq. intros i.
  destruct (Z.ltb_spec (Z.of_nat i) (size b)) as [Hi|Hi].
  - rewrite reverse_lookup by (rewrite length_fmap, length_seqZ; lia).
    rewrite !list_lookup_fmap, length_fmap, length_seqZ.
    rewrite !lookup_seqZ_lt by lia. cbn. f_equal.
    replace (begin b + (0 + Z.of_nat (Z.to_nat (size b) - S i)))
      with (begin b - (1 + Z.of_nat i) + 1 * size b) by lia.
    symmetry. apply Z_mod_plus_full.
  - rewrite !lookup_ge_None_2; [done|..];
      rewrite ?length_reverse, length_fmap, length_seqZ; lia.
Qed.

(** Counting matches in a list cannot overflow a [size_t] counter when
    the list is no longer than a [size_t] value. *)
Lemma tally_fold value (xs : list T) acc :
  0 <= acc -> acc + Z.of_nat (length xs) < 2 ^ SIZE_BITS ->
  foldl (fun a x => tally value x a) acc xs =
  acc + Z.of_nat (length (filter (fun x => elem_eqb x value = true) xs)).
Proof.
  revert acc. induction xs as [|x xs IH]; intros acc Hacc Hlen;
    cbn [foldl length] in *.
  - rewrite filter_nil. cbn. lia.
  - rewrite filter_cons. unfold tally at 2.
    pose proof (length_filter (fun x => elem_eqb x value = true) xs).
    destruct (elem_eqb x value) eqn:Hx.
    + rewrite decide_True by done. cbn [length].
      rewrite (wrap_size_small (acc + 1)) by (unfold is_size_t; lia).
      rewrite IH by lia. lia.
    + rewrite decide_False by done. by rewrite IH by lia.
Qed.

Lemma occupied_positions_in_range b :
  wf b -> 0 < size b ->
  Forall (fun p => 0 <= p < Z.of_nat (length (buf b))) (occupied_positions b).
Proof.
  intros [Hs Hb Hbg He Hw] Hpos. unfold occupied_positions, position.
  apply Forall_fmap, Forall_forall. intros i _. cbn.
  pose proof (Z.mod_pos_bound (begin b + i) (size b) Hpos). lia.
Qed.

(** What [walk] computes on a full buffer: its body folded over the
    contents, newest element first. *)
Lemma walk_full {A} (body : T -> A -> A) acc b :
  wf b -> count b = size b -> 2 * size b <= 2 ^ SIZE_BITS ->
  walk body (Z.to_nat (count b)) (count b) (begin b) acc b =
    Ok (foldl (fun a x => body x a) acc (reverse (occupied b)), b).
Proof.
  intros Hwf Hfull Hmax.
  pose proof (stat_reads_full b Hwf Hfull Hmax) as Hreads.
  unfold stat_reads, mbind, M_bind, gets in Hreads. cbn in Hreads.
  destruct (Z.eq_dec (size b) 0) as [Hz|Hnz].
  { unfold occupied, occupied_positions. rewrite Hfull, Hz. done. }
  assert (0 < size b) as Hpos.
  { destruct Hwf as [Hs _ _ _ _]. unfold is_size_t in Hs. lia. }
  rewrite (walk_follows_reads body _ _ _ acc b _ Hreads).
  - unfold occupied. by rewrite <- fmap_reverse, foldl_fmap.
  - apply Forall_reverse. by apply occupied_positions_in_range.
Qed.

(** X13. On a full buffer (count() equal to the capacity, capacity at
    most 2^63) the statistics loop reads every occupied slot exactly once,
    from the newest element back to the oldest; countValue(value) and
    zeroCount() then return the number of occupied elements equal to
    [value], respectively to zero. *)
Theorem full_buffer_counts b value :
  wf b -> count b = size b -> 2 * size b <= 2 ^ SIZE_BITS ->
  stat_reads b = Ok (reverse (occupied_positions b), b) /\
  countValue value b = Ok (spec_countValue value b, b) /\
  zeroCount b = Ok (spec_zeroCount b, b).
Proof.
  intros Hwf Hfull Hmax.
  pose proof (count_range b Hwf) as Hcnt.
  split; [by apply stat_reads_full|].
  assert (forall v, walk (tally v) (Z.to_nat (count b)) (count b) (begin b) 0 b
                    = Ok (spec_countValue v b, b)) as Hcount.
  { intros v. rewrite walk_full by done. do 2 f_equal.
    rewrite tally_fold.
    - unfold spec_countValue. by rewrite filter_reverse, length_reverse.
    - done.
    - rewrite length_reverse, length_occupied. unfold SIZE_BITS in *. lia. }
  split; [apply Hcount|apply Hcount].
Qed.

(** X14. On a full buffer of positive capacity mean() is the float sum
    of the occupied elements, added newest first, divided by the count. *)
Theorem full_buffer_mean b :
  wf b -> count b = size b -> 0 < size b -> 2 * size b <= 2 ^ SIZE_BITS ->
  mean b =
    Ok (F32.div
          (foldl (fun s x => F32.add s (to_float x)) F32.zero
                 (reverse (occupied b)))
          (F32.of_Z (count b)), b).
Proof.
  intros Hwf Hfull Hpos Hmax.
  unfold mean, mbind, M_bind, gets. cbn.
  rewrite walk_full by done. cbn.
  destruct (Z.eqb_spec (count b) 0); [lia|done].
Qed.

(** X15. On an empty buffer mean() returns 0 and zeroCount() and
    countValue(value) return 0, without a single read of the storage;
    mean(n) returns 0 as well when [n] or the capacity is 0, and reduces
    modulo zero otherwise. *)
Theorem empty_buffer_statistics b n value :
  count b = 0 -> is_size_t n -> 0 <= size b ->
  stat_reads b = Ok ([], b) /\
  mean b = Ok (F32.zero, b) /\
  zeroCount b = Ok (0, b) /\
  countValue value b = Ok (0, b) /\
  mean_n n b = (if (n =? 0) || (size b =? 0) then Ok (F32.zero, b)
                else Fault ModByZero).
Proof.
  intros Hc Hn Hsz. unfold is_size_t in Hn.
  unfold stat_reads, mean, zeroCount, countValue, mean_n, mbind, M_bind, gets.
  cbn.
  rewrite Hc. cbn. repeat split.
  destruct (Z.eqb_spec n 0) as [->|Hn0].
  { assert (Z.to_nat (if 0 <? size b then 0 else size b) = 0%nat) as ->
      by (destruct (Z.ltb_spec 0 (size b)); lia).
    done. }
  destruct (Z.eqb_spec (size b) 0) as [Hs0|Hs0]; cbn.
  { assert (Z.to_nat (if n <? size b then n else size b) = 0%nat) as ->
      by (destruct (Z.ltb_spec n (size b)); lia).
    done. }
  destruct (Z.to_nat (if n <? size b then n else size b)) as [|trips] eqn:Ht.
  { destruct (Z.ltb_spec n (size b)); lia. }
  reflexivity.
Qed.

(** *** The statistics on any well-formed buffer *)

(** With a positive divisor no larger than the storage, the statistics
    loop never faults. *)
Lemma walk_returns {A} (body : T -> A -> A) trips curr_cnt iterator acc b :
  0 < curr_cnt <= Z.of_nat (length (buf b)) ->
  exists r, walk body trips curr_cnt iterator acc b = Ok (r, b).
Proof.
  intros Hcc. revert iterator acc.
  induction trips as [|trips IH]; intros iterator acc; [by eexists|].
  cbn [walk]. unfold mbind, M_bind, gets, umod, load, index. cbn.
  destruct (Z.eqb_spec curr_cnt 0); [lia|].
  unfold mbind, M_bind, gets, mret, M_ret. cbn.
  set (it := wrap_size (wrap_size (iterator + size b) - 1) mod curr_cnt).
  pose proof (Z.mod_pos_bound (wrap_size (wrap_size (iterator + size b) - 1))
                curr_cnt ltac:(lia)) as Hit. fold it in Hit.
  destruct (Z.ltb_spec it 0); [lia|].
  destruct (lookup_lt_is_Some_2 (buf b) (Z.to_nat it)) as [x Hx]; [lia|].
  rewrite Hx. cbn. apply IH.
Qed.

Lemma walk_returns_wf {A} (body : T -> A -> A) acc b :
  wf b ->
  exists r,
    walk body (Z.to_nat (count b)) (count b) (begin b) acc b = Ok (r, b).
Proof.
  intros Hwf. pose proof (count_range b Hwf) as Hcnt.
  destruct (Z.eq_dec (count b) 0) as [->|Hnz]; [by eexists|].
  apply walk_returns. destruct Hwf as [_ Hb _ _ _]. lia.
Qed.

(** The loop of [variance] reads the storage from slot [i] upwards. *)
Lemma variance_loop_run trips curr_cnt m i iterator acc b :
  0 < curr_cnt -> 0 <= i ->
  i + Z.of_nat trips <= Z.of_nat (length (buf b)) ->
  Z.of_nat (length (buf b)) < 2 ^ SIZE_BITS ->
  variance_loop trips curr_cnt m i iterator acc b =
    Ok (foldl (fun s x =>
                 let deviation := F32.sub (to_float x) m in
                 of_float (F32.add (to_float s) (F32.mul deviation deviation)))
              acc (take trips (drop (Z.to_nat i) (buf b))), b).
Proof.
  intros Hcc. revert i iterator acc.
  induction trips as [|trips IH]; intros i iterator acc Hi Hlen Hmax; [done|].
  cbn [variance_loop]. unfold mbind, M_bind, gets, umod, load, index. cbn.
  destruct (Z.eqb_spec curr_cnt 0); [lia|].
  unfold mbind, M_bind, gets, mret, M_ret. cbn.
  destruct (Z.ltb_spec i 0); [lia|].
  destruct (lookup_lt_is_Some_2 (buf b) (Z.to_nat i)) as [x Hx]; [lia|].
  rewrite Hx. cbn.
  rewrite (wrap_size_small (i + 1)) by (unfold is_size_t; lia).
  rewrite IH by lia.
  rewrite (drop_S _ x _ Hx). cbn.
  by replace (Z.to_nat (i + 1)) with (S (Z.to_nat i)) by lia.
Qed.


(** What [variance] computes in the model, for any [Elem T]. *)
Lemma variance_run b :
  wf b -> 0 < size b ->
  exists m,
    mean b = Ok (m, b) /\
    variance b =
      Ok (F32.div
            (to_float
               (foldl (fun s x =>
                         let deviation := F32.sub (to_float x) m in
                         of_float (F32.add (to_float s)
                                           (F32.mul deviation deviation)))
                      elem_zero (take (Z.to_nat (count b)) (buf b))))
            (F32.of_Z (size b - 1)), b).
Proof.
  intros Hwf Hpos. pose proof (count_range b Hwf) as Hcnt.
  pose proof Hwf as [Hs Hb Hbg He Hw].
  assert (exists r, mean b = Ok (r, b)) as [m Hmean].
  { unfold mean, mbind, M_bind, gets. cbn.
    destruct (walk_returns_wf add_sample F32.zero b Hwf) as [s ->]. by eexists. }
  exists m. split; [done|].
  unfold variance, mbind, M_bind, gets. cbn. rewrite Hmean.
  destruct (Z.eqb_spec (size b) 0); [lia|].
  rewrite (wrap_size_small (size b - 1)) by (unfold is_size_t in *; lia).
  destruct (Z.eq_dec (count b) 0) as [Hz|Hnz].
  - rewrite Hz. done.
  - rewrite variance_loop_run by (unfold is_size_t in Hs; lia). done.
Qed.

Lemma walk_reads_below trips curr_cnt iterator b :
  0 < curr_cnt ->
  exists ps,
    walk_reads trips curr_cnt iterator b = Ok (ps, b) /\
    length ps = trips /\ Forall (fun p => 0 <= p < curr_cnt) ps.
Proof.
  intros Hcc. revert iterator.
  induction trips as [|trips IH]; intros iterator.
  { exists []. by repeat split. }
  cbn [walk_reads]. unfold mbind, M_bind, gets, umod. cbn.
  destruct (Z.eqb_spec curr_cnt 0); [lia|].
  unfold mbind, M_bind, gets, mret, M_ret. cbn.
  set (it := wrap_size (wrap_size (iterator + size b) - 1) mod curr_cnt).
  pose proof (Z.mod_pos_bound (wrap_size (wrap_size (iterator + size b) - 1))
                curr_cnt Hcc) as Hit. fold it in Hit.
  destruct (IH it) as (ps & -> & Hlen & Hall).
  exists (it :: ps). split; [done|]. split; [by cbn; rewrite Hlen|].
  by apply Forall_cons.
Qed.

(** X18. On every well-formed buffer the loop shared by mean(),
    zeroCount() and countValue() makes count() reads, and each of them
    is of a slot below count(): slots at or above the occupied count are
    never read, wherever [begin] is. *)
Theorem stat_reads_below_count b :
  wf b ->
  exists ps,
    stat_reads b = Ok (ps, b) /\
    length ps = Z.to_nat (count b) /\
    Forall (fun p => 0 <= p < count b) ps.
Proof.
  intros Hwf. pose proof (count_range b Hwf) as Hcnt.
  unfold stat_reads, mbind, M_bind, gets. cbn.
  destruct (Z.eq_dec (count b) 0) as [->|Hnz].
  - exists []. by repeat split.
  - apply walk_reads_below. lia.
Qed.

End Facts.
(** ** The claims on concrete buffers of [RingBuffer<float>] *)

Import Examples.

Lemma size_t_small z : 0 <= z < 1000 -> is_size_t z.
Proof. unfold is_size_t, SIZE_BITS. lia. Qed.

(** C1. Capacity 5 holding 1, 2, 3, 4, 5: mean(2) sums the two newest
    elements and divides by the occupied count 5, giving 9/5, where the
    mean of the two most recent elements is 9/2. On an empty buffer of
    capacity 3, mean(1) reduces modulo the occupied count 0. *)
Theorem mean_n_divides_by_count :
  run (Push <$> [fl 1; fl 2; fl 3; fl 4; fl 5]) (create 5) = Ok (tt, full5) /\
  occupied full5 = [fl 1; fl 2; fl 3; fl 4; fl 5] /\
  mean_n 2 full5 = Ok (F32.ratio 9 5, full5) /\
  spec_mean_n 2 full5 = F32.ratio 9 2 /\
  F32.eqb (F32.ratio 9 5) (F32.ratio 9 2) = false /\
  mean_n 1 (create (T:=float) 3) = Fault ModByZero /\
  spec_mean_n 1 (create (T:=float) 3) = F32.zero.
Proof. repeat split; vm_compute; reflexivity. Qed.

(** C2. Capacity 4 holding 1, 2: variance() divides the sum of squared
    deviations 1/2 by capacity - 1 = 3, giving 1/6, where the sample
    variance is 1/2. Capacity 1 holding one element: variance() is 0/0,
    a NaN, where the specification asks for 0. *)
Theorem variance_divides_by_capacity :
  run (Push <$> [fl 1; fl 2]) (create 4) = Ok (tt, two_of_4) /\
  count two_of_4 = 2 /\
  variance two_of_4 = Ok (F32.ratio 1 6, two_of_4) /\
  spec_variance two_of_4 = F32.ratio 1 2 /\
  F32.eqb (F32.ratio 1 6) (F32.ratio 1 2) = false /\
  run [Push (fl 3)] (create 1) = Ok (tt, one_of_1) /\
  count one_of_1 = 1 /\
  variance one_of_1 = Ok (S754_nan, one_of_1) /\
  spec_variance one_of_1 = F32.zero.
Proof. repeat split; vm_compute; reflexivity. Qed.

(** C3. Capacity 4 after pushing 0, 0, 7, 9 and consuming two elements:
    the occupied elements 7, 9 are in slots 2, 3, and the statistics loop
    reads slots 1 and 0, which hold consumed values. mean() is 0 instead
    of 8, zeroCount() is 2 instead of 0, countValue(7) is 0 instead of 1
    and variance() is 0 instead of 2. Capacity 4 after pushing 1, 2, 3,
    with nothing consumed: the loop reads slot 0 three times, and mean()
    is 1 instead of 2. *)
Theorem statistics_read_stale_slots :
  run ((Push <$> [fl 0; fl 0; fl 7; fl 9]) ++ [Consume 2]) (create 4)
    = Ok (tt, tail_of_4) /\
  occupied_positions tail_of_4 = [2; 3] /\
  occupied tail_of_4 = [fl 7; fl 9] /\
  stat_reads tail_of_4 = Ok ([1; 0], tail_of_4) /\
  mean tail_of_4 = Ok (fl 0, tail_of_4) /\
  spec_mean tail_of_4 = fl 8 /\
  zeroCount tail_of_4 = Ok (2, tail_of_4) /\
  spec_zeroCount tail_of_4 = 0 /\
  countValue (fl 7) tail_of_4 = Ok (0, tail_of_4) /\
  spec_countValue (fl 7) tail_of_4 = 1 /\
  variance tail_of_4 = Ok (fl 0, tail_of_4) /\
  spec_variance tail_of_4 = fl 2 /\
  run (Push <$> [fl 1; fl 2; fl 3]) (create 4) = Ok (tt, three_of_4) /\
  occupied_positions three_of_4 = [0; 1; 2] /\
  stat_reads three_of_4 = Ok ([0; 0; 0], three_of_4) /\
  mean three_of_4 = Ok (fl 1, three_of_4) /\
  spec_mean three_of_4 = fl 2.
Proof. repeat split; vm_compute; reflexivity. Qed.

(** C4. On an empty buffer of capacity 3, mean(1) reduces modulo the
    occupied count 0. On a buffer of capacity 0, push stores outside the
    empty block and then reduces modulo the capacity 0: the store is the
    first fault, and on an object given one slot to store into (its [size]
    still 0) the reduction is. On an empty buffer of capacity 1,
    variance() divides 0 by 0 and returns a NaN. *)
Theorem degenerate_cases_fault :
  mean_n 1 (create (T:=float) 3) = Fault ModByZero /\
  (forall value : float, push value (create 0) = Fault OutOfBounds) /\
  (forall value : float, push value (mk [fl 0] 0 0 0 false) = Fault ModByZero) /\
  count (create (T:=float) 1) = 0 /\
  variance (create (T:=float) 1) = Ok (S754_nan, create 1).
Proof. repeat split; vm_compute; reflexivity. Qed.

(** C8, the clause that fails. Produce(0) on a fresh buffer of capacity 3
    returns 0 and leaves [begin = end] with [wrap] clear. *)
Lemma produce_zero_keeps_flag_clear :
  produce 0 (create (T:=float) 3) = Ok (0, create 3) /\
  begin (create (T:=float) 3) = end_ (create (T:=float) 3) /\
  wrap (create (T:=float) 3) = false.
Proof. repeat split; vm_compute; reflexivity. Qed.

(** C9, the case that fails. A buffer of capacity 0 is a state a client
    can construct, and on it GetMostRecent() reads [buf[0]] outside the
    empty storage: there is no element at index [end]. *)
Lemma get_most_recent_zero_capacity :
  reachable (create (T:=float) 0) /\
  end_ (create (T:=float) 0) = 0 /\
  buf (create (T:=float) 0) = [] /\
  get_most_recent (create (T:=float) 0) = Fault OutOfBounds.
Proof.
  split; [apply reach_create, size_t_small; lia|].
  repeat split; vm_compute; reflexivity.
Qed.

(** ** The general claims at concrete buffers *)

(** Discharges [Forall op_args_ok] on a concrete history. *)
Ltac solve_args :=
  repeat first
    [ apply Forall_nil_2
    | apply Forall_cons_2; [first [exact I | apply size_t_small; lia]|] ].

(** Discharges [wf] on a concrete object. *)
Ltac solve_wf :=
  split; cbn;
  [ unfold is_size_t, SIZE_BITS; lia | lia | lia | lia
  | first [ discriminate | intros _; split; [reflexivity | lia] ] ].

Lemma count_free_capacity_witness :
  reachable tail_of_4 /\
  count tail_of_4 + getFree tail_of_4 = size tail_of_4 /\
  0 <= count tail_of_4 <= size tail_of_4.
Proof.
  assert (reachable tail_of_4) as Hr.
  { apply (run_reachable 4 ((Push <$> [fl 0; fl 0; fl 7; fl 9]) ++ [Consume 2])).
    - apply size_t_small. lia.
    - solve_args.
    - vm_compute. reflexivity. }
  split; [exact Hr|]. exact (count_free_capacity tail_of_4 Hr).
Defined.

Lemma wrap_flag_sound_witness :
  (wrap wrapped3 = true -> begin wrapped3 = end_ wrapped3) /\
  (count wrapped3 = size wrapped3 <->
   spec_count 3 (Push <$> [fl 1; fl 2; fl 3; fl 4]) = 3) /\
  (spec_count 3 (Push <$> [fl 1; fl 2; fl 3; fl 4]) = 0 -> count wrapped3 = 0).
Proof.
  apply (wrap_flag_sound 3 (Push <$> [fl 1; fl 2; fl 3; fl 4]) wrapped3).
  - apply size_t_small. lia.
  - solve_args.
  - vm_compute. reflexivity.
Defined.

Lemma get_most_recent_reads_end_witness :
  exists v,
    buf wrapped3 !! Z.to_nat (end_ wrapped3) = Some v /\
    get_most_recent wrapped3 = Ok (v, wrapped3).
Proof. apply (get_most_recent_reads_end wrapped3); [solve_wf | cbn; lia]. Defined.

Lemma produce_consume_bookkeeping_witness :
  (exists b',
     let k := Z.min 3 (getFree tail_of_4) in
     produce 3 tail_of_4 = Ok (k, b') /\
     buf b' = buf tail_of_4 /\ size b' = size tail_of_4 /\
     begin b' = begin tail_of_4 /\
     end_ b' = (if size tail_of_4 =? 0 then end_ tail_of_4
                else (end_ tail_of_4 + k) mod size tail_of_4) /\
     wrap b' = (wrap tail_of_4 || ((0 <? k) && (begin b' =? end_ b')))) /\
  (exists b',
     let k := Z.min 3 (count tail_of_4) in
     consume 3 tail_of_4 = Ok (k, b') /\
     buf b' = buf tail_of_4 /\ size b' = size tail_of_4 /\
     end_ b' = end_ tail_of_4 /\
     begin b' = (if size tail_of_4 =? 0 then begin tail_of_4
                 else (begin tail_of_4 + k) mod size tail_of_4) /\
     wrap b' = (if 0 <? k then false else wrap tail_of_4)).
Proof.
  apply (produce_consume_bookkeeping tail_of_4 3).
  - solve_wf.
  - apply size_t_small. lia.
Defined.

Lemma write_read_roundtrip_witness :
  exists b1 b2,
    write [fl 7; fl 8] 2 (mk [fl 0; fl 0; fl 0] 3 2 2 false) = Ok (2, b1) /\
    read [fl 0; fl 0] 2 b1 =
      Ok ((2, [fl 7; fl 8] ++ drop (Z.to_nat 2) [fl 0; fl 0]), b2).
Proof.
  apply (write_read_roundtrip (mk [fl 0; fl 0; fl 0] 3 2 2 false)
           [fl 7; fl 8] [fl 0; fl 0] 2).
  - solve_wf.
  - reflexivity.
  - cbn. lia.
  - reflexivity.
  - cbn. lia.
Defined.

Lemma push_evicts_oldest_witness :
  exists b',
    run (Push <$> [fl 1; fl 2; fl 3; fl 4]) (create 3) = Ok (tt, b') /\
    occupied b' = drop 1 [fl 1; fl 2; fl 3; fl 4].
Proof.
  assert (wf (create (T:=float) 3)) as Hwf
    by (apply create_wf, size_t_small; lia).
  assert (0 < size (create (T:=float) 3)) as Hpos by (cbn; lia).
  apply (proj1 (push_evicts_oldest (create 3) Hwf Hpos)
           [fl 1; fl 2; fl 3; fl 4] 1%nat).
  reflexivity.
Defined.

(** ** The further properties at concrete buffers *)

#[local] Existing Instance T_inhabited.

Lemma history_keeps_layout_witness :
  size tail_of_4 = 4 /\ Z.of_nat (length (buf tail_of_4)) = 4 /\
  (0 < 4 -> 0 <= begin tail_of_4 < 4 /\ 0 <= end_ tail_of_4 < 4) /\
  (4 = 0 -> begin tail_of_4 = 0 /\ end_ tail_of_4 = 0 /\ wrap tail_of_4 = false).
Proof.
  apply (history_keeps_layout 4
           ((Push <$> [fl 0; fl 0; fl 7; fl 9]) ++ [Consume 2]) tail_of_4).
  - apply size_t_small. lia.
  - solve_args.
  - vm_compute. reflexivity.
Defined.

Lemma history_returns_witness :
  exists b',
    run [Push (fl 1); Write [fl 2; fl 3; fl 4] 3; Read [fl 0; fl 0] 2; Reset;
         Produce 5; Consume 1] (create 3) = Ok (tt, b') /\
    wf b' /\ size b' = size (create (T:=float) 3).
Proof.
  apply (history_returns _ (create 3)).
  - apply create_wf, size_t_small. lia.
  - cbn. lia.
  - repeat first
      [ apply Forall_nil_2
      | apply Forall_cons_2;
        [first [exact I | apply size_t_small; lia
               | split; [apply size_t_small; lia | cbn; lia]]|] ].
Defined.

Lemma zero_capacity_is_inert_witness :
  count (create (T:=float) 0) = 0 /\ getFree (create (T:=float) 0) = 0 /\
  produce 5 (create (T:=float) 0) = Ok (0, create 0) /\
  consume 5 (create (T:=float) 0) = Ok (0, create 0) /\
  (forall data, write data 5 (create (T:=float) 0) = Ok (0, create 0)) /\
  (forall dest, read dest 5 (create (T:=float) 0) = Ok ((0, dest), create 0)) /\
  reset (create (T:=float) 0) = Ok (tt, create 0) /\
  (forall value : float, push value (create 0) = Fault OutOfBounds).
Proof.
  apply (zero_capacity_is_inert (create 0) 5).
  - apply create_wf, size_t_small. lia.
  - reflexivity.
  - apply size_t_small. lia.
Defined.

Lemma push_sliding_window_witness :
  exists b',
    run (Push <$> [fl 5; fl 6]) wrapped3 = Ok (tt, b') /\
    occupied b' =
      drop (length (occupied wrapped3 ++ [fl 5; fl 6]) - Z.to_nat (size wrapped3))
           (occupied wrapped3 ++ [fl 5; fl 6]) /\
    count b' = Z.min (size wrapped3)
                 (count wrapped3 + Z.of_nat (length [fl 5; fl 6])).
Proof. apply (push_sliding_window wrapped3 [fl 5; fl 6]); [solve_wf | cbn; lia]. Defined.

Lemma write_appends_witness :
  exists b',
    write [fl 5; fl 6; fl 8] 3 tail_of_4 = Ok (Z.min 3 (getFree tail_of_4), b') /\
    occupied b' =
      occupied tail_of_4
      ++ take (Z.to_nat (Z.min 3 (getFree tail_of_4))) [fl 5; fl 6; fl 8] /\
    count b' = count tail_of_4 + Z.min 3 (getFree tail_of_4).
Proof.
  apply (write_appends tail_of_4 [fl 5; fl 6; fl 8] 3).
  - solve_wf.
  - apply size_t_small. lia.
  - cbn. lia.
Defined.

Lemma read_takes_oldest_witness :
  exists b',
    let k := Z.to_nat (Z.min 1 (count wrapped3)) in
    read [fl 0; fl 0] 1 wrapped3 =
      Ok ((Z.min 1 (count wrapped3),
           take k (occupied wrapped3) ++ drop k [fl 0; fl 0]), b') /\
    occupied b' = drop k (occupied wrapped3) /\
    buf b' = buf wrapped3 /\ end_ b' = end_ wrapped3.
Proof.
  apply (read_takes_oldest wrapped3 [fl 0; fl 0] 1).
  - solve_wf.
  - apply size_t_small. lia.
  - cbn. lia.
Defined.

Lemma consume_drops_oldest_witness :
  exists b',
    consume 2 wrapped3 = Ok (Z.min 2 (count wrapped3), b') /\
    occupied b' = drop (Z.to_nat (Z.min 2 (count wrapped3))) (occupied wrapped3) /\
    count b' = count wrapped3 - Z.min 2 (count wrapped3).
Proof.
  apply (consume_drops_oldest wrapped3 2); [solve_wf | apply size_t_small; lia].
Defined.

Lemma reset_empties_witness :
  exists b',
    reset wrapped3 = Ok (tt, b') /\
    count b' = 0 /\ getFree b' = size wrapped3 /\ occupied b' = [] /\
    buf b' = buf wrapped3 /\ end_ b' = end_ wrapped3 /\
    (0 < size wrapped3 ->
     forall value, exists b'',
       push value b' = Ok (tt, b'') /\ count b'' = 1 /\ occupied b'' = [value]).
Proof. apply (reset_empties wrapped3). solve_wf. Defined.

Lemma clamped_calls_are_no_ops_witness :
  produce 2 full5 = Ok (0, full5) /\
  (forall data, write data 2 full5 = Ok (0, full5)).
Proof.
  assert (wf full5) as Hwf by solve_wf.
  assert (is_size_t 2) as Hn by (apply size_t_small; lia).
  apply (proj1 (clamped_calls_are_no_ops full5 2 Hwf Hn)).
  right. reflexivity.
Defined.

Lemma queries_leave_object_witness :
  exists r b', zeroCount tail_of_4 = Ok (r, b') /\ b' = tail_of_4.
Proof.
  assert (zeroCount tail_of_4 = Ok (2, tail_of_4)) as Hrun
    by (vm_compute; reflexivity).
  exists 2, tail_of_4. split; [exact Hrun|].
  exact (proj1 (proj2 (proj2 (proj2 (proj2 (queries_leave_object tail_of_4)))))
           2 tail_of_4 Hrun).
Defined.

Lemma write_then_read_all_witness :
  exists b1 b2,
    write [fl 5; fl 6; fl 8] 3 tail_of_4 = Ok (Z.min 3 (getFree tail_of_4), b1) /\
    read [fl 0; fl 0; fl 0; fl 0; fl 0]
         (count tail_of_4 + Z.min 3 (getFree tail_of_4)) b1 =
      Ok ((count tail_of_4 + Z.min 3 (getFree tail_of_4),
           occupied tail_of_4
           ++ take (Z.to_nat (Z.min 3 (getFree tail_of_4))) [fl 5; fl 6; fl 8]
           ++ drop (Z.to_nat (count tail_of_4 + Z.min 3 (getFree tail_of_4)))
                [fl 0; fl 0; fl 0; fl 0; fl 0]), b2) /\
    count b2 = 0.
Proof.
  apply (write_then_read_all tail_of_4 [fl 5; fl 6; fl 8]
           [fl 0; fl 0; fl 0; fl 0; fl 0] 3).
  - solve_wf.
  - apply size_t_small. lia.
  - cbn. lia.
  - vm_compute. discriminate.
Defined.

Lemma push_then_most_recent_witness :
  exists b',
    push (fl 5) two_of_4 = Ok (tt, b') /\
    get_most_recent b' =
      Ok (if size two_of_4 =? 1 then fl 5
          else buf two_of_4 !!! Z.to_nat ((end_ two_of_4 + 1) mod size two_of_4),
          b').
Proof. apply (push_then_most_recent two_of_4 (fl 5)); [solve_wf | cbn; lia]. Defined.

Lemma full_buffer_counts_witness :
  stat_reads wrapped3 = Ok (reverse (occupied_positions wrapped3), wrapped3) /\
  countValue (fl 2) wrapped3 = Ok (spec_countValue (fl 2) wrapped3, wrapped3) /\
  zeroCount wrapped3 = Ok (spec_zeroCount wrapped3, wrapped3).
Proof.
  apply (full_buffer_counts wrapped3 (fl 2)).
  - solve_wf.
  - reflexivity.
  - vm_compute. discriminate.
Defined.

Lemma full_buffer_mean_witness :
  mean wrapped3 =
    Ok (F32.div
          (foldl (fun s x => F32.add s (to_float x)) F32.zero
                 (reverse (occupied wrapped3)))
          (F32.of_Z (count wrapped3)), wrapped3).
Proof.
  apply (full_buffer_mean wrapped3).
  - solve_wf.
  - reflexivity.
  - cbn. lia.
  - vm_compute. discriminate.
Defined.

Lemma empty_buffer_statistics_witness :
  stat_reads (create (T:=float) 3) = Ok ([], create 3) /\
  mean (create (T:=float) 3) = Ok (F32.zero, create 3) /\
  zeroCount (create (T:=float) 3) = Ok (0, create 3) /\
  countValue (fl 1) (create 3) = Ok (0, create 3) /\
  mean_n 1 (create (T:=float) 3) =
    (if (1 =? 0) || (size (create (T:=float) 3) =? 0)
     then Ok (F32.zero, create 3) else Fault ModByZero).
Proof.
  apply (empty_buffer_statistics (create 3) 1 (fl 1)).
  - reflexivity.
  - apply size_t_small. lia.
  - cbn. lia.
Defined.


(** X17. What variance() computes for [RingBuffer<float>] on a
    well-formed buffer of positive capacity: with [m] the value of
    mean(), the binary32 sum, from 0, of the squared deviations from [m]
    of the first count() slots of the storage, whatever [begin] is,
    divided by the capacity minus one. *)
Theorem variance_closed_form (b : t (T:=float)) :
  wf b -> 0 < size b ->
  exists m,
    mean b = Ok (m, b) /\
    variance b =
      Ok (F32.div
            (foldl (fun s x =>
                      F32.add s (F32.mul (F32.sub x m) (F32.sub x m)))
                   F32.zero (take (Z.to_nat (count b)) (buf b)))
            (F32.of_Z (size b - 1)), b).
Proof.
  intros Hwf Hpos.
  destruct (variance_run b Hwf Hpos) as (m & Hmean & Hvar).
  exists m. split; [exact Hmean|]. exact Hvar.
Qed.

Lemma variance_closed_form_witness :
  exists m,
    mean two_of_4 = Ok (m, two_of_4) /\
    variance two_of_4 =
      Ok (F32.div
            (foldl (fun s x =>
                      F32.add s (F32.mul (F32.sub x m) (F32.sub x m)))
                   F32.zero (take (Z.to_nat (count two_of_4)) (buf two_of_4)))
            (F32.of_Z (size two_of_4 - 1)), two_of_4).
Proof. apply (variance_closed_form two_of_4); [solve_wf | cbn; lia]. Defined.

Lemma stat_reads_below_count_witness :
  exists ps,
    stat_reads tail_of_4 = Ok (ps, tail_of_4) /\
    length ps = Z.to_nat (count tail_of_4) /\
    Forall (fun p => 0 <= p < count tail_of_4) ps.
Proof. apply (stat_reads_below_count tail_of_4). solve_wf. Defined.

End RingBufferFacts.
